(** * bedgen: the BED interval engine of [app.py]

    A shallow embedding of [app.py]: [normalize_chromosome],
    [is_standard_chromosome], [fetch_gene_positions] with the record
    normalisation it does, [process_bed_file], [fetch_positions], and
    [generate_bed] up to the rows it hands to [to_csv].  The replies of
    the lookup service are a parameter of the model; the HTML page and
    the writing of the file are not modelled.

    Modelling conventions.
    - Python [str] is [string] (the UTF-8 bytes; byte-wise comparison of
      UTF-8 agrees with Python's code-point comparison).  Contig names are
      taken to be ASCII, as genomic contig names are: the natural-sort key
      splits on the ASCII digits only.  [str.strip] and [str.upper] are
      modelled on the ASCII characters; the statements about the symbols
      of a request assume an ASCII text ([ascii_text]).
    - Python [int] coordinates are [Z].  pandas keeps them in [int64]
      columns, so the coordinates and [extend_bp] are taken to lie in
      the signed 64-bit range, and the arithmetic of lines 159-160 wraps
      around there ([wrap64]).
    - A pandas DataFrame with the columns [chr], [start], [end], [gene] is
      the list of its rows in index order; [chr] and [gene] are columns
      of strings.  A cell of a record that lacks the key, or has [null]
      under it, is [None] (pandas stores NaN or [None] there).
    - A raised exception is the [Raise] outcome of the [Exc] monad. *)

From Stdlib Require Import String Ascii List ZArith NArith Arith Bool Lia.
From Stdlib Require Import Sorted Permutation.
Import ListNotations.

Open Scope string_scope.
Open Scope Z_scope.

(* ================================================================= *)
(** ** Exceptions *)

Inductive Error : Type :=
| HTTPException (status_code : Z) (detail : string)
| ConversionError.
  (** what [int(cell)] raises on a missing cell (a [ValueError] for NaN,
      a [TypeError] for [None]); no handler of the endpoint catches it *)

Inductive Exc (A : Type) : Type :=
| Ok (a : A)
| Raise (e : Error).

Arguments Ok {A} a.
Arguments Raise {A} e.

Definition bind {A B : Type} (m : Exc A) (k : A -> Exc B) : Exc B :=
  match m with
  | Ok a => k a
  | Raise e => Raise e
  end.

Notation "x <- m ;; k" := (bind m (fun x => k))
  (at level 61, m at next level, right associativity).

(* ================================================================= *)
(** ** Strings *)

(** [s.startswith(p)] *)
Definition startswith (p s : string) : bool := String.prefix p s.

(** [pat in s]: [Series.str.contains(pat)] for a pattern without regex
    metacharacters, which is how the code uses it ("alt", "fix"). *)
Fixpoint contains (pat s : string) : bool :=
  startswith pat s ||
  match s with
  | EmptyString => false
  | String _ s' => contains pat s'
  end.

(** What "[s] contains the substring [pat]" means. *)
Definition Substring (pat s : string) : Prop :=
  exists pre post, s = pre ++ pat ++ post.

(* ================================================================= *)
(** ** [normalize_chromosome], [is_standard_chromosome] *)

Definition normalize_chromosome (seq_region : string) : string :=
  if startswith "chr" seq_region then seq_region else "chr" ++ seq_region.

Definition STANDARD_CHROMOSOMES : list string :=
  map (fun i => "chr" ++ i)
      ["1"; "2"; "3"; "4"; "5"; "6"; "7"; "8"; "9"; "10"; "11"; "12"; "13";
       "14"; "15"; "16"; "17"; "18"; "19"; "20"; "21"; "22"]
  ++ ["chrX"; "chrY"].

Definition is_standard_chromosome (chrom : string) : bool :=
  existsb (String.eqb chrom) STANDARD_CHROMOSOMES.

(* ================================================================= *)
(** ** Rows *)

(** A row of the DataFrame that [generate_bed] builds from the JSON
    records, and that [process_bed_file] receives.  [None] is a missing
    cell (NaN, or [None] in a column of objects). *)
Record Record_ : Type := mkRecord {
  r_chr : option string;
  r_start : option Z;
  r_end : option Z;
  r_gene : option string
}.

(** A row whose coordinates are integers: what the rows are once the
    repair loop of [process_bed_file] has read [int(start)] and
    [int(end)] of each of them.  Also the type of the merged rows and of
    the output rows (there [gene] is never missing). *)
Record Row : Type := mkRow {
  chr : option string;
  start : Z;
  end_ : Z;
  gene : option string
}.

Definition DataFrame := list Record_.

(** [Series.str.contains(pat, na=False)] on one cell. *)
Definition str_contains (pat : string) (cell : option string) : bool :=
  match cell with
  | Some s => contains pat s
  | None => false
  end.

(** Lines 136-140: [df = df[~df["chr"].str.contains(..., na=False)]]. *)
Definition filter_contigs (remove_alt remove_fix : bool) (df : DataFrame)
  : DataFrame :=
  let df := if remove_alt
            then filter (fun r => negb (str_contains "alt" (r_chr r))) df
            else df in
  let df := if remove_fix
            then filter (fun r => negb (str_contains "fix" (r_chr r))) df
            else df in
  df.

(** A record is on an excluded contig: its contig cell holds a string
    that contains "alt" and [remove_alt] is set, or one that contains
    "fix" and [remove_fix] is set. *)
Definition excluded (remove_alt remove_fix : bool) (r : Record_) : bool :=
  (remove_alt && str_contains "alt" (r_chr r)) ||
  (remove_fix && str_contains "fix" (r_chr r)).

Definition on_contig_with (pat : string) (r : Record_) : Prop :=
  exists c, r_chr r = Some c /\ Substring pat c.

(* ================================================================= *)
(** ** The record normaliser of [fetch_gene_positions] (lines 70-87) *)

(** One entry of the lookup response; a key the entry lacks is [None]
    ([gene_data.get(key, default)] supplies the default). *)
Record GeneData : Type := mkGeneData {
  display_name : option string;
  seq_region_name : option string;
  gd_start : option Z;
  gd_end : option Z;
  gd_strand : option Z
}.

(** One entry of the [found] list. *)
Record Position : Type := mkPosition {
  p_gene : string;
  p_chr : string;
  p_start : Z;
  p_end : Z;
  p_strand : Z;
  p_is_standard : bool
}.

Definition get {A : Type} (cell : option A) (default : A) : A :=
  match cell with
  | Some a => a
  | None => default
  end.

Definition normalize (symbol : string) (gene_data : GeneData) : Position :=
  let chrom := normalize_chromosome (get (seq_region_name gene_data) "") in
  let start := get (gd_start gene_data) 0 in
  let end_ := get (gd_end gene_data) 0 in
  let strand := get (gd_strand gene_data) 1 in
  let '(start, end_) := if start >? end_ then (end_, start) else (start, end_) in
  mkPosition (get (display_name gene_data) symbol) chrom start end_ strand
             (is_standard_chromosome chrom).

(** The DataFrame row that [pd.DataFrame(genes)] makes of a [found] entry
    (the columns [strand] and [is_standard] are never read). *)
Definition record_of_position (p : Position) : Record_ :=
  mkRecord (Some (p_chr p)) (Some (p_start p)) (Some (p_end p))
           (Some (p_gene p)).

(** The row of a [found] entry once the repair loop has read it. *)
Definition row_of_position (p : Position) : Row :=
  mkRow (Some (p_chr p)) (p_start p) (p_end p) (Some (p_gene p)).

(** The contig cell holds the name of a standard chromosome. *)
Definition on_standard_chromosome (r : Record_) : Prop :=
  exists c, r_chr r = Some c /\ is_standard_chromosome c = true.

(** Every character of [s] satisfies [f]. *)
Fixpoint all_chars (f : ascii -> bool) (s : string) : bool :=
  match s with
  | EmptyString => true
  | String c s' => f c && all_chars f s'
  end.

(* ================================================================= *)
(** ** [fetch_positions]: reading the gene symbols (lines 658-666)

    A [string] is a sequence of 8-bit characters, and [str.strip] and
    [str.upper] are modelled on the ASCII characters, where gene symbols
    live.  On a text that holds other characters (a no-break space,
    a sharp s) Python's white space and upper case differ from
    [is_space] and [upper_char]: every statement about the reading of
    symbols therefore carries the hypothesis that the text is ASCII. *)

(** A character of the ASCII range, code below 128. *)
Definition is_ascii (c : ascii) : bool := (nat_of_ascii c <? 128)%nat.

(** [text.isascii()] *)
Definition ascii_text (s : string) : Prop := all_chars is_ascii s = true.

(** [c.isspace()], for an ASCII character [c]: tab, line feed, vertical
    tab, form feed, carriage return, the four separators 28-31, space. *)
Definition is_space (c : ascii) : bool :=
  ((9 <=? nat_of_ascii c)%nat && (nat_of_ascii c <=? 13)%nat) ||
  ((28 <=? nat_of_ascii c)%nat && (nat_of_ascii c <=? 32)%nat).

Fixpoint lstrip (s : string) : string :=
  match s with
  | EmptyString => EmptyString
  | String c s' => if is_space c then lstrip s' else s
  end.

Fixpoint rstrip (s : string) : string :=
  match s with
  | EmptyString => EmptyString
  | String c s' =>
      match rstrip s' with
      | EmptyString => if is_space c then EmptyString else String c EmptyString
      | t => String c t
      end
  end.

(** [s.strip()] *)
Definition strip (s : string) : string := rstrip (lstrip s).

(** [s.replace(a, b)] for single characters [a] and [b]. *)
Fixpoint replace (a b : ascii) (s : string) : string :=
  match s with
  | EmptyString => EmptyString
  | String c s' => String (if Ascii.eqb c a then b else c) (replace a b s')
  end.

(** [s.split(sep)] for a single character [sep]. *)
Fixpoint split (sep : ascii) (s : string) : list string :=
  match s with
  | EmptyString => [EmptyString]
  | String c s' =>
      if Ascii.eqb c sep then EmptyString :: split sep s'
      else match split sep s' with
           | piece :: pieces => String c piece :: pieces
           | [] => [String c EmptyString]
           end
  end.

Definition comma : ascii := ","%char.
Definition newline : ascii := "010"%char.

Definition is_empty (s : string) : bool :=
  match s with
  | EmptyString => true
  | String _ _ => false
  end.

(** Lines 658-663: the symbols of the request, in the order given. *)
Definition parse_symbols (genes : string) : list string :=
  filter (fun symbol => negb (is_empty symbol))
         (map strip (split newline (replace comma newline genes))).

(** [sep.join(pieces)] *)
Fixpoint join (sep : ascii) (pieces : list string) : string :=
  match pieces with
  | [] => EmptyString
  | [piece] => piece
  | piece :: pieces' => piece ++ String sep (join sep pieces')
  end.

(** A symbol as [parse_symbols] yields them: not empty, without comma
    or line break, without blank at either end. *)
Definition clean_symbol (symbol : string) : Prop :=
  symbol <> EmptyString
  /\ all_chars (fun c => negb (Ascii.eqb c comma)
                         && negb (Ascii.eqb c newline)) symbol = true
  /\ strip symbol = symbol.

(* ================================================================= *)
(** ** [fetch_gene_positions] and [fetch_positions]

    What the program does not determine is a parameter: the order in
    which [list(set(...))] lists a set, and the replies of the lookup
    service. *)

(** The reply to the batch request [POST /lookup/symbol/homo_sapiens]. *)
Inductive BatchReply : Type :=
| Status200 (data : string -> option GeneData)
  (** [response.json()]: [data symbol] is [Some gene_data] when [symbol]
      is a key of the object and its value is a non-empty object. *)
| StatusOther
  (** any other status code *)
| RequestFailed (msg : string).
  (** [requests.post] or [response.json()] raised [e], [str(e) = msg] *)

Record World : Type := mkWorld {
  list_of_set : list string -> list string;
  post_lookup : list string -> BatchReply;
  (** [GET /lookup/symbol/homo_sapiens/{symbol}]: [Some gene_data] when
      the status is 200, [None] for any other status and when the
      request raised. *)
  get_lookup : string -> option GeneData
}.

(** [list(set(l))] lists the elements of [l], each once. *)
Definition set_listing (w : World) : Prop :=
  forall l, NoDup (list_of_set w l)
            /\ forall x, In x (list_of_set w l) <-> In x l.

(** [c.upper()], for an ASCII character [c]. *)
Definition upper_char (c : ascii) : ascii :=
  if (97 <=? nat_of_ascii c)%nat && (nat_of_ascii c <=? 122)%nat
  then ascii_of_nat (nat_of_ascii c - 32)
  else c.

(** [s.upper()] *)
Fixpoint upper (s : string) : string :=
  match s with
  | EmptyString => EmptyString
  | String c s' => String (upper_char c) (upper s')
  end.

(** Line 50, before the set is listed. *)
Definition wanted_symbols (gene_symbols : list string) : list string :=
  map (fun s => upper (strip s))
      (filter (fun s => negb (is_empty (strip s))) gene_symbols).

(** The loops of lines 68-89 and 92-118: every symbol goes to [found],
    normalised, or to [not_found]. *)
Fixpoint lookup_each (lookup : string -> option GeneData)
         (symbols : list string) : list Position * list string :=
  match symbols with
  | [] => ([], [])
  | symbol :: symbols' =>
      let (found, not_found) := lookup_each lookup symbols' in
      match lookup symbol with
      | Some gene_data => (normalize symbol gene_data :: found, not_found)
      | None => (found, symbol :: not_found)
      end
  end.

Definition fetch_gene_positions (w : World) (gene_symbols : list string)
  : Exc (list Position * list string) :=
  match gene_symbols with
  | [] => Ok ([], [])
  | _ :: _ =>
      let unique_symbols := list_of_set w (wanted_symbols gene_symbols) in
      match post_lookup w unique_symbols with
      | Status200 data => Ok (lookup_each data unique_symbols)
      | StatusOther => Ok (lookup_each (get_lookup w) unique_symbols)
      | RequestFailed msg =>
          Raise (HTTPException 500 ("Ensembl API error: " ++ msg))
      end
  end.

(** The body of the response of [/fetch-positions]. *)
Record PositionsResponse : Type := mkPositionsResponse {
  genes : list Position;
  non_standard : list Position;
  not_found : list string
}.

Definition fetch_positions (w : World) (genes : string)
  : Exc PositionsResponse :=
  match parse_symbols genes with
  | [] => Raise (HTTPException 400 "No gene symbols provided")
  | gene_list =>
      result <- fetch_gene_positions w gene_list ;;
      Ok (mkPositionsResponse
            (filter p_is_standard (fst result))
            (filter (fun g => negb (p_is_standard g)) (fst result))
            (snd result))
  end.

(** An entry of [found] is well formed. *)
Definition well_formed_position (p : Position) : Prop :=
  p_start p <= p_end p
  /\ (exists rest, p_chr p = "chr" ++ rest)
  /\ p_is_standard p = is_standard_chromosome (p_chr p).

(* ================================================================= *)
(** ** A stable sort

    [list.sort], and the model of the pandas and numpy sorts: insertion
    from the right keeps equal elements in their input order. *)

Section StableSort.
Context {A : Type} (leb : A -> A -> bool).

Fixpoint insert_sorted (x : A) (l : list A) : list A :=
  match l with
  | [] => [x]
  | y :: l' => if leb x y then x :: l else y :: insert_sorted x l'
  end.

Fixpoint stable_sort (l : list A) : list A :=
  match l with
  | [] => []
  | x :: l' => insert_sorted x (stable_sort l')
  end.

(** The order of the output of the sort: by [leb], and elements that
    compare equal as in the input, where [before a b] says that [a]
    stands before [b] there. *)
Definition stable_le (before : A -> A -> Prop) (a b : A) : Prop :=
  leb a b = true /\ (leb b a = true -> before a b).
End StableSort.

(** [enumerate(seq)] *)
Definition enumerate {A : Type} (l : list A) : list (nat * A) :=
  combine (seq 0 (length l)) l.

(* ================================================================= *)
(** ** [natsort]: the key of [index_natsorted] under [ns.DEFAULT] *)

Inductive token : Type :=
| TStr (s : string)
| TInt (n : N)
| TNegInf.

Definition is_digit (c : ascii) : bool :=
  (48 <=? nat_of_ascii c)%nat && (nat_of_ascii c <=? 57)%nat.

Definition digit_value (c : ascii) : N := N.of_nat (nat_of_ascii c - 48).

(** [int(run)] of a run of digits. *)
Fixpoint int_of_digits (acc : N) (s : string) : N :=
  match s with
  | EmptyString => acc
  | String c s' => int_of_digits (10 * acc + digit_value c)%N s'
  end.

(** [re.split("([0-9]+)", s)] without the empty pieces: the maximal runs
    of digits ([true]) and of other characters ([false]) of [s]. *)
Fixpoint runs (s : string) : list (bool * string) :=
  match s with
  | EmptyString => []
  | String c s' =>
      let d := is_digit c in
      match runs s' with
      | (d', r) :: rest =>
          if Bool.eqb d d' then (d, String c r) :: rest
          else (d, String c EmptyString) :: (d', r) :: rest
      | [] => [(d, String c EmptyString)]
      end
  end.

Definition token_of_run (r : bool * string) : token :=
  if fst r then TInt (int_of_digits 0 (snd r)) else TStr (snd r).

(** The key of a string: its runs, the digit runs as integers, with the
    empty string put in front of a leading number, so that strings stand
    at the even places and numbers at the odd ones. *)
Definition natsort_key_str (s : string) : list token :=
  let toks := map token_of_run (runs s) in
  match runs s with
  | (true, _) :: _ => TStr "" :: toks
  | _ => toks
  end.

(** The key of a cell; a missing cell (NaN) is keyed [("", -inf)]. *)
Definition natsort_key (cell : option string) : list token :=
  match cell with
  | Some s => natsort_key_str s
  | None => [TStr ""; TNegInf]
  end.

(** Comparison of two key components.  Python compares a string with a
    string and a number with a number only, which is all that two keys
    ever ask for; the two mixed cases are there to make the function
    total. *)
Definition token_compare (a b : token) : comparison :=
  match a, b with
  | TStr s, TStr t => String.compare s t
  | TStr _, _ => Lt
  | _, TStr _ => Gt
  | TNegInf, TNegInf => Eq
  | TNegInf, TInt _ => Lt
  | TInt _, TNegInf => Gt
  | TInt m, TInt n => N.compare m n
  end.

(** Python's comparison of tuples: the first place that differs
    decides, and a proper prefix comes first. *)
Fixpoint tuple_compare (a b : list token) : comparison :=
  match a, b with
  | [], [] => Eq
  | [], _ :: _ => Lt
  | _ :: _, [] => Gt
  | x :: a', y :: b' =>
      match token_compare x y with
      | Eq => tuple_compare a' b'
      | c => c
      end
  end.

(** Natural ordering of two contig cells. *)
Definition natural_compare (c1 c2 : option string) : comparison :=
  tuple_compare (natsort_key c1) (natsort_key c2).

Definition natural_leb (c1 c2 : option string) : bool :=
  match natural_compare c1 c2 with
  | Gt => false
  | _ => true
  end.

(** [index_natsorted(col)]: the indices of [col] in natural order. *)
Definition index_natsorted (col : list (option string)) : list nat :=
  map fst (stable_sort (fun a b => natural_leb (snd a) (snd b))
                       (enumerate col)).

(** [np.argsort(p)] *)
Definition argsort (p : list nat) : list nat :=
  map fst (stable_sort (fun a b => (snd a <=? snd b)%nat) (enumerate p)).

(** The label of a row that has one. *)
Definition label_of (r : Row) : string :=
  match gene r with
  | Some g => g
  | None => ""
  end.

(** The place of a contig in the conventional order of the standard
    chromosomes, chr1, ..., chr22, chrX, chrY (24 for any other). *)
Fixpoint index_of (c : string) (l : list string) : nat :=
  match l with
  | [] => 0%nat
  | x :: l' => if String.eqb c x then 0%nat else S (index_of c l')
  end.

Definition karyotype_rank (cell : option string) : nat :=
  match cell with
  | Some c => index_of c STANDARD_CHROMOSOMES
  | None => length STANDARD_CHROMOSOMES
  end.

(* ================================================================= *)
(** ** [process_bed_file] *)

(** Lines 143-148, one turn of the loop: [int(start) > int(end)] is read
    first, and [int] of a missing cell raises. *)
Definition fix_reverse_row (r : Record_) : Exc Row :=
  match r_start r, r_end r with
  | Some s, Some e =>
      if s >? e then Ok (mkRow (r_chr r) e s (r_gene r))
      else Ok (mkRow (r_chr r) s e (r_gene r))
  | _, _ => Raise ConversionError
  end.

Fixpoint fix_reverse (df : DataFrame) : Exc (list Row) :=
  match df with
  | [] => Ok []
  | r :: df' =>
      r' <- fix_reverse_row r ;;
      rest <- fix_reverse df' ;;
      Ok (r' :: rest)
  end.

(** Every coordinate cell of the frame holds a number. *)
Definition has_coordinates (r : Record_) : Prop :=
  r_start r <> None /\ r_end r <> None.

(** [r'] is the record [r] with its coordinates put in order. *)
Definition repaired (r : Record_) (r' : Row) : Prop :=
  chr r' = r_chr r /\ gene r' = r_gene r /\
  exists s e, r_start r = Some s /\ r_end r = Some e /\
              start r' = Z.min s e /\ end_ r' = Z.max s e.

(** A repaired row as a DataFrame row again. *)
Definition record_of_row (r : Row) : Record_ :=
  mkRecord (chr r) (Some (start r)) (Some (end_ r)) (gene r).

(** The keys of [df.groupby("gene")]: the labels present, each once, in
    ascending order (a row without label belongs to no group). *)
Fixpoint insert_key (g : string) (keys : list string) : list string :=
  match keys with
  | [] => [g]
  | k :: ks =>
      match String.compare g k with
      | Lt => g :: keys
      | Eq => keys
      | Gt => k :: insert_key g ks
      end
  end.

(** The order of the keys. *)
Definition string_lt (a b : string) : Prop := String.compare a b = Lt.

Fixpoint group_keys (rows : list Row) : list string :=
  match rows with
  | [] => []
  | r :: rows' =>
      match gene r with
      | Some g => insert_key g (group_keys rows')
      | None => group_keys rows'
      end
  end.

Definition in_group (g : string) (r : Row) : bool :=
  match gene r with
  | Some g' => String.eqb g' g
  | None => false
  end.

(** ["first"]: the first cell of the group that is not missing. *)
Fixpoint agg_first (col : list (option string)) : option string :=
  match col with
  | [] => None
  | Some c :: _ => Some c
  | None :: col' => agg_first col'
  end.

(** ["min"] and ["max"] over the cells of a group (never empty). *)
Definition agg_min (col : list Z) : Z :=
  match col with
  | [] => 0
  | x :: col' => fold_left Z.min col' x
  end.

Definition agg_max (col : list Z) : Z :=
  match col with
  | [] => 0
  | x :: col' => fold_left Z.max col' x
  end.

Definition merge_group (g : string) (members : list Row) : Row :=
  mkRow (agg_first (map chr members)) (agg_min (map start members))
        (agg_max (map end_ members)) (Some g).

(** Lines 151-155. *)
Definition groupby_agg (rows : list Row) : list Row :=
  map (fun g => merge_group g (filter (in_group g) rows)) (group_keys rows).

(** The range of an [int64] column. *)
Definition int64_min : Z := -9223372036854775808.
Definition int64_max : Z := 9223372036854775807.

Definition in_int64 (z : Z) : Prop := int64_min <= z <= int64_max.

(** The result of an addition or subtraction of [int64] operands in an
    [int64] column: it wraps around silently. *)
Definition wrap64 (z : Z) : Z :=
  (z - int64_min) mod 18446744073709551616 + int64_min.

(** Lines 159-163 on one row: subtract and add in the [int64] columns
    that [astype(int)] gives, then [clip(lower=0)].  The coordinates and
    [extend_bp] are [int64] values here; statements about the result
    say so where they depend on it ([extends_in_range],
    [coordinates_within]). *)
Definition extend (extend_bp : Z) (m : Row) : Row :=
  mkRow (chr m) (Z.max 0 (wrap64 (start m - extend_bp)))
        (wrap64 (end_ m + extend_bp)) (gene m).

(** The coordinates of the record, where it has both, lie between [lo]
    and [hi]. *)
Definition coordinates_within (lo hi : Z) (r : Record_) : Prop :=
  forall s e, r_start r = Some s -> r_end r = Some e ->
              lo <= s <= hi /\ lo <= e <= hi.

(** Extending the row by [extend_bp] stays inside the [int64] range:
    the operands and the two results fit. *)
Definition extends_in_range (extend_bp : Z) (m : Row) : Prop :=
  in_int64 extend_bp /\ in_int64 (start m) /\ in_int64 (end_ m)
  /\ in_int64 (start m - extend_bp) /\ in_int64 (end_ m + extend_bp).

(** Lines 158-163. *)
Definition extend_regions (extend_bp : Z) (merged : list Row) : list Row :=
  if extend_bp >? 0 then map (extend extend_bp) merged else merged.

(** Line 169.  (pandas sorts with [kind="quicksort"], which may order
    rows of equal [start] otherwise; no statement below depends on how
    the sort of line 169 orders them.) *)
Definition sort_values_start (merged : list Row) : list Row :=
  stable_sort (fun a b => start a <=? start b) merged.

(** Lines 170-173: the rows in the order of the pairs
    ([key(chr)], [start]), where [key(chr)] is
    [np.argsort(index_natsorted(chr))]. *)
Definition key_leb (a b : nat * Row) : bool :=
  (fst a <? fst b)%nat ||
  ((fst a =? fst b)%nat && (start (snd a) <=? start (snd b))).

Definition sort_values_chr_start (merged : list Row) : list Row :=
  let key_chr := argsort (index_natsorted (map chr merged)) in
  map snd (stable_sort key_leb (combine key_chr merged)).

(** The order the output is to have: by contig in natural order, then
    by [start] ascending. *)
Definition bed_le (a b : Row) : Prop :=
  match natural_compare (chr a) (chr b) with
  | Lt => True
  | Eq => start a <= start b
  | Gt => False
  end.

Definition process_bed_file (df : DataFrame) (extend_bp : Z)
           (remove_alt remove_fix : bool) : Exc (list Row) :=
  let df := filter_contigs remove_alt remove_fix df in
  rows <- fix_reverse df ;;
  let merged := groupby_agg rows in
  let merged := extend_regions extend_bp merged in
  let merged := sort_values_start merged in
  Ok (sort_values_chr_start merged).

(* ================================================================= *)
(** ** [generate_bed]: what it does before and with [process_bed_file] *)

(** A field of a decoded JSON object: the key is not there, it is there
    with [null], or it is there with a value. *)
Inductive Field (A : Type) : Type :=
| Absent
| Null
| Present (a : A).

Arguments Absent {A}.
Arguments Null {A}.
Arguments Present {A} a.

(** An element of the decoded [genes_json], an array of objects as the
    page sends it: [chr] and [gene], where they have a value, are
    strings, [start] and [end] integers; other keys are not read. *)
Record JsonRecord : Type := mkJson {
  j_chr : Field string;
  j_start : Field Z;
  j_end : Field Z;
  j_gene : Field string
}.

Definition has_key {A : Type} (f : Field A) : bool :=
  match f with
  | Absent => false
  | Null | Present _ => true
  end.

(** The cell that [pd.DataFrame] makes of a field: missing unless the
    field has a value. *)
Definition cell_of {A : Type} (f : Field A) : option A :=
  match f with
  | Present a => Some a
  | Absent | Null => None
  end.

(** [pd.DataFrame(genes)], row by row. *)
Definition frame_of_records (genes : list JsonRecord) : DataFrame :=
  map (fun j => mkRecord (cell_of (j_chr j)) (cell_of (j_start j))
                         (cell_of (j_end j)) (cell_of (j_gene j)))
      genes.

(** [col in df.columns]: [pd.DataFrame(genes)] has a column for every
    key that some record carries, be it with [null]. *)
Definition has_chr (genes : list JsonRecord) : bool :=
  existsb (fun r => has_key (j_chr r)) genes.
Definition has_start (genes : list JsonRecord) : bool :=
  existsb (fun r => has_key (j_start r)) genes.
Definition has_end (genes : list JsonRecord) : bool :=
  existsb (fun r => has_key (j_end r)) genes.
Definition has_gene (genes : list JsonRecord) : bool :=
  existsb (fun r => has_key (j_gene r)) genes.

(** Lines 696-712, from the decoded [genes] list to the rows that are
    written to the file. *)
Definition generate_bed (genes : list JsonRecord) (extend_bp : Z)
  : Exc (list Row) :=
  match genes with
  | [] => Raise (HTTPException 400 "No genes provided")
  | _ :: _ =>
      if negb (has_chr genes)
      then Raise (HTTPException 400 "Missing column: chr")
      else if negb (has_start genes)
      then Raise (HTTPException 400 "Missing column: start")
      else if negb (has_end genes)
      then Raise (HTTPException 400 "Missing column: end")
      else if negb (has_gene genes)
      then Raise (HTTPException 400 "Missing column: gene")
      else process_bed_file (frame_of_records genes) extend_bp false false
  end.

(** Some record carries the key. *)
Definition carried {A : Type} (key : JsonRecord -> Field A)
           (genes : list JsonRecord) : Prop :=
  Exists (fun r => key r <> Absent) genes.

(** The record has a value under [start] and under [end]. *)
Definition has_both_coordinates (r : JsonRecord) : Prop :=
  cell_of (j_start r) <> None /\ cell_of (j_end r) <> None.

(** The JSON object that the page sends back for a [found] entry. *)
Definition json_of_position (p : Position) : JsonRecord :=
  mkJson (Present (p_chr p)) (Present (p_start p)) (Present (p_end p))
         (Present (p_gene p)).

(* ================================================================= *)
(** ** Facts about strings *)

Lemma startswith_app (p s : string) : startswith p (p ++ s) = true.
Proof.
  unfold startswith. induction p as [|c p IH]; simpl.
  - destruct s; reflexivity.
  - destruct (ascii_dec c c) as [_|n]; [exact IH | contradiction].
Qed.

Lemma startswith_inv (p s : string) :
  startswith p s = true -> exists post, s = p ++ post.
Proof.
  unfold startswith. revert s. induction p as [|c p IH]; intros s H.
  - exists s. reflexivity.
  - destruct s as [|d s]; simpl in H; [discriminate|].
    destruct (ascii_dec c d) as [->|]; [|discriminate].
    destruct (IH _ H) as [post ->]. exists post. reflexivity.
Qed.

Lemma contains_unfold (pat s : string) :
  contains pat s =
  startswith pat s ||
  match s with
  | EmptyString => false
  | String _ s' => contains pat s'
  end.
Proof. destruct s; reflexivity. Qed.

Lemma contains_Substring (pat s : string) :
  contains pat s = true <-> Substring pat s.
Proof.
  split.
  - induction s as [|c s IH]; rewrite contains_unfold, orb_true_iff;
      intros [H|H]; try discriminate.
    + destruct (startswith_inv _ _ H) as [post ->]. now exists "", post.
    + destruct (startswith_inv _ _ H) as [post ->]. now exists "", post.
    + destruct (IH H) as (pre & post & ->). now exists (String c pre), post.
  - intros (pre & post & ->). induction pre as [|c pre IH].
    + rewrite contains_unfold. change ("" ++ pat ++ post) with (pat ++ post).
      now rewrite startswith_app.
    + rewrite contains_unfold. change (String c pre ++ pat ++ post)
        with (String c (pre ++ pat ++ post)).
      cbv beta iota. rewrite IH. apply orb_true_r.
Qed.


(* ================================================================= *)
(** ** Facts about the stable sort *)

Section StableSortPerm.
Context {A : Type} (leb : A -> A -> bool).

Lemma insert_sorted_perm (x : A) (l : list A) :
  Permutation (insert_sorted leb x l) (x :: l).
Proof.
  induction l as [|y l IH]; simpl.
  - apply Permutation_refl.
  - destruct (leb x y).
    + apply Permutation_refl.
    + eapply perm_trans; [apply perm_skip, IH | apply perm_swap].
Qed.

Lemma stable_sort_perm (l : list A) : Permutation (stable_sort leb l) l.
Proof.
  induction l as [|x l IH]; simpl.
  - apply perm_nil.
  - eapply perm_trans; [apply insert_sorted_perm | apply perm_skip, IH].
Qed.

Lemma stable_sort_length (l : list A) :
  length (stable_sort leb l) = length l.
Proof. apply Permutation_length, stable_sort_perm. Qed.

Lemma stable_sort_In (x : A) (l : list A) :
  In x (stable_sort leb l) <-> In x l.
Proof.
  split; apply Permutation_in;
    [apply stable_sort_perm | apply Permutation_sym, stable_sort_perm].
Qed.
End StableSortPerm.

Section StableSortSorted.
Context {A : Type} (leb : A -> A -> bool).
Hypothesis leb_total : forall a b, leb a b = true \/ leb b a = true.
Hypothesis leb_trans :
  forall a b c, leb a b = true -> leb b c = true -> leb a c = true.

(** [before a b]: [a] stands before [b] in the input of the sort. *)
Variable before : A -> A -> Prop.

Lemma insert_sorted_stable (x : A) (l : list A) :
  Forall (before x) l ->
  StronglySorted (stable_le leb before) l ->
  StronglySorted (stable_le leb before) (insert_sorted leb x l).
Proof.
  intros Hx Hl. induction Hl as [|y l Hl IH Hy]; simpl.
  - constructor; constructor.
  - inversion Hx as [|? ? Hxy Hxl]; subst.
    destruct (leb x y) eqn:E.
    + constructor; [constructor; assumption|].
      constructor.
      * split; [exact E | intros _; exact Hxy].
      * rewrite Forall_forall in *. intros z Hz. split.
        -- apply leb_trans with y; [exact E | apply (Hy z Hz)].
        -- intros _. apply Hxl, Hz.
    + constructor; [apply IH, Hxl|].
      rewrite Forall_forall in *. intros z Hz.
      apply (Permutation_in _ (insert_sorted_perm leb x l)) in Hz.
      destruct Hz as [<-|Hz]; [|apply Hy, Hz].
      split.
      * destruct (leb_total y x) as [H|H]; [exact H | congruence].
      * congruence.
Qed.

Lemma stable_sort_stable (l : list A) :
  StronglySorted before l ->
  StronglySorted (stable_le leb before) (stable_sort leb l).
Proof.
  induction 1 as [|x l Hl IH Hx]; simpl.
  - constructor.
  - apply insert_sorted_stable; [|exact IH].
    rewrite Forall_forall in *. intros z Hz. apply Hx.
    apply (Permutation_in _ (stable_sort_perm leb l)), Hz.
Qed.
End StableSortSorted.

(* ================================================================= *)
(** ** Facts about the comparisons *)

Lemma ascii_compare_refl (a : ascii) : Ascii.compare a a = Eq.
Proof. apply N.compare_refl. Qed.

Lemma ascii_compare_lt_trans (a b c : ascii) :
  Ascii.compare a b = Lt -> Ascii.compare b c = Lt -> Ascii.compare a c = Lt.
Proof.
  unfold Ascii.compare. rewrite !N.compare_lt_iff. apply N.lt_trans.
Qed.

Lemma string_compare_refl (s : string) : String.compare s s = Eq.
Proof.
  induction s as [|c s IH]; simpl; [reflexivity|].
  now rewrite ascii_compare_refl.
Qed.

Lemma string_compare_lt_trans (a b c : string) :
  String.compare a b = Lt -> String.compare b c = Lt -> String.compare a c = Lt.
Proof.
  revert b c. induction a as [|x a IH]; intros [|y b] [|z c]; simpl;
    try congruence.
  destruct (Ascii.compare x y) eqn:Exy; destruct (Ascii.compare y z) eqn:Eyz;
    try discriminate; intros Hab Hbc.
  - apply Ascii.compare_eq_iff in Exy, Eyz. subst.
    rewrite ascii_compare_refl. eauto.
  - apply Ascii.compare_eq_iff in Exy. subst. now rewrite Eyz.
  - apply Ascii.compare_eq_iff in Eyz. subst. now rewrite Exy.
  - now rewrite (ascii_compare_lt_trans _ _ _ Exy Eyz).
Qed.

Lemma token_compare_refl (a : token) : token_compare a a = Eq.
Proof.
  destruct a; simpl;
    [apply string_compare_refl | apply N.compare_refl | reflexivity].
Qed.

Lemma token_compare_eq (a b : token) : token_compare a b = Eq -> a = b.
Proof.
  destruct a, b; simpl; try discriminate; intros H.
  - now apply String.compare_eq_iff in H; subst.
  - now apply N.compare_eq in H; subst.
  - reflexivity.
Qed.

Lemma token_compare_antisym (a b : token) :
  token_compare b a = CompOpp (token_compare a b).
Proof.
  destruct a, b; simpl; try reflexivity.
  - apply String.compare_antisym.
  - apply N.compare_antisym.
Qed.

Lemma token_compare_lt_trans (a b c : token) :
  token_compare a b = Lt -> token_compare b c = Lt -> token_compare a c = Lt.
Proof.
  destruct a, b, c; simpl; try congruence.
  - apply string_compare_lt_trans.
  - rewrite !N.compare_lt_iff. apply N.lt_trans.
Qed.

Lemma tuple_compare_refl (a : list token) : tuple_compare a a = Eq.
Proof.
  induction a as [|x a IH]; simpl; [reflexivity|].
  now rewrite token_compare_refl.
Qed.

Lemma tuple_compare_eq (a b : list token) : tuple_compare a b = Eq -> a = b.
Proof.
  revert b. induction a as [|x a IH]; intros [|y b]; simpl; try discriminate.
  - reflexivity.
  - destruct (token_compare x y) eqn:E; try discriminate.
    intros H. apply token_compare_eq in E. apply IH in H. now subst.
Qed.

Lemma tuple_compare_antisym (a b : list token) :
  tuple_compare b a = CompOpp (tuple_compare a b).
Proof.
  revert b. induction a as [|x a IH]; intros [|y b]; simpl; try reflexivity.
  rewrite (token_compare_antisym x y).
  destruct (token_compare x y); simpl; auto.
Qed.

Lemma tuple_compare_lt_trans (a b c : list token) :
  tuple_compare a b = Lt -> tuple_compare b c = Lt -> tuple_compare a c = Lt.
Proof.
  revert b c. induction a as [|x a IH]; intros [|y b] [|z c]; simpl;
    try congruence.
  destruct (token_compare x y) eqn:Exy; destruct (token_compare y z) eqn:Eyz;
    try discriminate; intros Hab Hbc.
  - apply token_compare_eq in Exy, Eyz. subst.
    rewrite token_compare_refl. eauto.
  - apply token_compare_eq in Exy. subst. now rewrite Eyz.
  - apply token_compare_eq in Eyz. subst. now rewrite Exy.
  - now rewrite (token_compare_lt_trans _ _ _ Exy Eyz).
Qed.

(** The natural ordering of cells is a total preorder: two cells compare
    [Eq] exactly when their keys are equal. *)
Lemma natural_compare_eq (c1 c2 : option string) :
  natural_compare c1 c2 = Eq <-> natsort_key c1 = natsort_key c2.
Proof.
  unfold natural_compare. split.
  - apply tuple_compare_eq.
  - intros ->. apply tuple_compare_refl.
Qed.

Lemma natural_compare_antisym (c1 c2 : option string) :
  natural_compare c2 c1 = CompOpp (natural_compare c1 c2).
Proof. apply tuple_compare_antisym. Qed.

Lemma natural_compare_trans (c1 c2 c3 : option string) :
  natural_compare c1 c2 <> Gt -> natural_compare c2 c3 <> Gt ->
  natural_compare c1 c3 <> Gt /\
  (natural_compare c1 c3 = Eq ->
   natural_compare c1 c2 = Eq /\ natural_compare c2 c3 = Eq).
Proof.
  unfold natural_compare.
  set (a := natsort_key c1). set (b := natsort_key c2).
  set (c := natsort_key c3). clearbody a b c.
  destruct (tuple_compare a b) eqn:Eab; destruct (tuple_compare b c) eqn:Ebc;
    try congruence; intros _ _.
  - apply tuple_compare_eq in Eab, Ebc. subst.
    rewrite tuple_compare_refl. split; [discriminate | auto].
  - apply tuple_compare_eq in Eab. subst. rewrite Ebc.
    split; discriminate.
  - apply tuple_compare_eq in Ebc. subst. rewrite Eab.
    split; discriminate.
  - rewrite (tuple_compare_lt_trans _ _ _ Eab Ebc). split; discriminate.
Qed.

Lemma natural_leb_total (c1 c2 : option string) :
  natural_leb c1 c2 = true \/ natural_leb c2 c1 = true.
Proof.
  unfold natural_leb. rewrite (natural_compare_antisym c1 c2).
  destruct (natural_compare c1 c2); simpl; auto.
Qed.

Lemma natural_leb_trans (c1 c2 c3 : option string) :
  natural_leb c1 c2 = true -> natural_leb c2 c3 = true ->
  natural_leb c1 c3 = true.
Proof.
  unfold natural_leb. intros H12 H23.
  destruct (natural_compare_trans c1 c2 c3) as [H _].
  - destruct (natural_compare c1 c2); congruence.
  - destruct (natural_compare c2 c3); congruence.
  - destruct (natural_compare c1 c3); congruence.
Qed.

(* ================================================================= *)
(** ** Facts about lists, positions and [enumerate] *)

Section ListFacts.
Local Open Scope nat_scope.
Context {A B : Type}.

Lemma In_combine_nth_error (l1 : list A) (l2 : list B) (a : A) (b : B) :
  In (a, b) (combine l1 l2) ->
  exists i, nth_error l1 i = Some a /\ nth_error l2 i = Some b.
Proof.
  revert l2. induction l1 as [|x l1 IH]; intros [|y l2]; simpl;
    try contradiction.
  intros [E|H].
  - inversion E; subst. now exists 0.
  - destruct (IH _ H) as (i & H1 & H2). now exists (S i).
Qed.

(** In a strongly sorted list, positions in increasing order hold
    related elements. *)
Lemma StronglySorted_nth_error (R : A -> A -> Prop) (l : list A)
      (i j : nat) (a b : A) :
  StronglySorted R l -> i < j ->
  nth_error l i = Some a -> nth_error l j = Some b -> R a b.
Proof.
  intros Hl. revert i j. induction Hl as [|x l Hl IH Hx]; intros i j Hij Hi Hj.
  - destruct i; discriminate.
  - destruct j as [|j]; [lia|]. simpl in Hj. destruct i as [|i].
    + inversion Hi; subst. rewrite Forall_forall in Hx.
      eapply Hx, nth_error_In, Hj.
    + simpl in Hi. apply (IH i j); [lia | assumption | assumption].
Qed.

Lemma StronglySorted_map_In (R : A -> A -> Prop) (R' : B -> B -> Prop)
      (f : A -> B) (l : list A) :
  (forall a b, In a l -> In b l -> R a b -> R' (f a) (f b)) ->
  StronglySorted R l -> StronglySorted R' (map f l).
Proof.
  intros H Hl. induction Hl as [|x l Hl IH Hx]; simpl.
  - constructor.
  - constructor.
    + apply IH. intros a b Ha Hb. apply H; now right.
    + rewrite Forall_map, Forall_forall in *. intros y Hy.
      apply H; [now left | now right | now apply Hx].
Qed.
End ListFacts.

Section EnumerateFacts.
Local Open Scope nat_scope.
Context {A : Type}.

Lemma In_enumerate (l : list A) (i : nat) (x : A) :
  In (i, x) (enumerate l) -> nth_error l i = Some x.
Proof.
  intros H. apply In_combine_nth_error in H. destruct H as (j & H1 & H2).
  rewrite nth_error_seq in H1.
  destruct (j <? length l); inversion H1; subst. exact H2.
Qed.

Lemma map_fst_enumerate (l : list A) :
  map fst (enumerate l) = seq 0 (length l).
Proof.
  unfold enumerate. generalize 0. induction l as [|x l IH]; intros k; simpl.
  - reflexivity.
  - now rewrite IH.
Qed.

Lemma map_snd_enumerate (l : list A) : map snd (enumerate l) = l.
Proof.
  unfold enumerate. generalize 0. induction l as [|x l IH]; intros k; simpl.
  - reflexivity.
  - now rewrite IH.
Qed.

Lemma enumerate_sorted (l : list A) :
  StronglySorted (fun a b : nat * A => fst a < fst b) (enumerate l).
Proof.
  unfold enumerate. generalize 0. induction l as [|x l IH]; intros k; simpl.
  - constructor.
  - constructor; [apply IH|].
    rewrite Forall_forall. intros [j y] Hj. apply in_combine_l in Hj.
    apply in_seq in Hj. simpl. lia.
Qed.
End EnumerateFacts.

Section SeqFacts.
Local Open Scope nat_scope.

(** The only sorted arrangement of [k, k+1, ..., k+n-1]. *)
Lemma sorted_perm_seq (n k : nat) (l : list nat) :
  StronglySorted le l -> Permutation l (seq k n) -> l = seq k n.
Proof.
  revert k l. induction n as [|n IH]; intros k l Hs Hp; simpl in *.
  - now apply Permutation_nil, Permutation_sym.
  - destruct l as [|x l].
    + apply Permutation_nil_cons in Hp. contradiction.
    + inversion Hs as [|? ? Hs' Hx]; subst.
      assert (x = k) as ->.
      { assert (Hk : In k (x :: l))
          by (apply (Permutation_in _ (Permutation_sym Hp)); now left).
        assert (Hxin : In x (k :: seq (S k) n))
          by (apply (Permutation_in _ Hp); now left).
        destruct Hxin as [->|Hxin]; [reflexivity|].
        apply in_seq in Hxin. destruct Hk as [->|Hk]; [reflexivity|].
        rewrite Forall_forall in Hx. specialize (Hx _ Hk). lia. }
      f_equal. apply IH; [exact Hs'|].
      eapply Permutation_cons_inv, Hp.
Qed.
End SeqFacts.

(* ================================================================= *)
(** ** The two sorts of lines 169-173 *)

Section SortValues.
Local Open Scope nat_scope.

Lemma index_natsorted_perm (col : list (option string)) :
  Permutation (index_natsorted col) (seq 0 (length col)).
Proof.
  unfold index_natsorted. rewrite <- map_fst_enumerate.
  apply Permutation_map, stable_sort_perm.
Qed.

Lemma index_natsorted_length (col : list (option string)) :
  length (index_natsorted col) = length col.
Proof.
  rewrite (Permutation_length (index_natsorted_perm col)). apply length_seq.
Qed.

(** Two places of [index_natsorted col], the earlier one first: the
    cells they point at are in natural order, and in the order of the
    column when they compare equal. *)
Lemma index_natsorted_order (col : list (option string))
      (k1 k2 i1 i2 : nat) (c1 c2 : option string) :
  k1 < k2 ->
  nth_error (index_natsorted col) k1 = Some i1 ->
  nth_error (index_natsorted col) k2 = Some i2 ->
  nth_error col i1 = Some c1 -> nth_error col i2 = Some c2 ->
  natural_leb c1 c2 = true /\ (natural_leb c2 c1 = true -> i1 < i2).
Proof.
  unfold index_natsorted.
  set (leb := fun a b : nat * option string => natural_leb (snd a) (snd b)).
  set (P := stable_sort leb (enumerate col)).
  intros Hk H1 H2 Hc1 Hc2.
  rewrite nth_error_map in H1, H2.
  destruct (nth_error P k1) as [[j1 d1]|] eqn:E1; [|discriminate].
  destruct (nth_error P k2) as [[j2 d2]|] eqn:E2; [|discriminate].
  simpl in H1, H2. inversion H1; inversion H2; subst j1 j2.
  assert (Hd1 : nth_error col i1 = Some d1)
    by (apply In_enumerate, (stable_sort_In leb), (nth_error_In _ _ E1)).
  assert (Hd2 : nth_error col i2 = Some d2)
    by (apply In_enumerate, (stable_sort_In leb), (nth_error_In _ _ E2)).
  assert (d1 = c1) by congruence. assert (d2 = c2) by congruence. subst.
  assert (HP : StronglySorted
                 (stable_le leb (fun a b => fst a < fst b)) P).
  { apply stable_sort_stable.
    - intros a b. apply natural_leb_total.
    - intros a b c. apply natural_leb_trans.
    - apply enumerate_sorted. }
  exact (StronglySorted_nth_error _ _ _ _ _ _ HP Hk E1 E2).
Qed.

Lemma argsort_length (p : list nat) : length (argsort p) = length p.
Proof.
  unfold argsort. rewrite length_map, stable_sort_length.
  unfold enumerate. rewrite length_combine, length_seq. apply Nat.min_id.
Qed.

(** [np.argsort] of a permutation of [0 .. n-1] is its inverse. *)
Lemma argsort_inverse (p : list nat) (n i k : nat) :
  Permutation p (seq 0 n) ->
  nth_error (argsort p) i = Some k -> nth_error p k = Some i.
Proof.
  unfold argsort.
  set (leb := fun a b : nat * nat => snd a <=? snd b).
  set (Q := stable_sort leb (enumerate p)).
  intros Hp Hi.
  assert (HQ : map snd Q = seq 0 n).
  { apply sorted_perm_seq.
    - apply StronglySorted_map_In
        with (R := stable_le leb (fun _ _ => True)).
      + intros a b _ _ [H _]. now apply Nat.leb_le.
      + apply stable_sort_stable.
        * intros a b. unfold leb. rewrite !Nat.leb_le. lia.
        * intros a b c. unfold leb. rewrite !Nat.leb_le. lia.
        * clear. induction (enumerate p); constructor; [assumption|].
          now apply Forall_forall.
    - eapply perm_trans; [|exact Hp].
      pose proof (Permutation_map snd (stable_sort_perm leb (enumerate p)))
        as HQ.
      now rewrite map_snd_enumerate in HQ. }
  rewrite nth_error_map in Hi.
  destruct (nth_error Q i) as [[k' v]|] eqn:E; [|discriminate].
  simpl in Hi. inversion Hi; subst k'.
  assert (Hv : nth_error (map snd Q) i = Some v)
    by (rewrite nth_error_map, E; reflexivity).
  rewrite HQ, nth_error_seq in Hv.
  destruct (i <? n); inversion Hv; subst v.
  apply In_enumerate, (stable_sort_In leb), (nth_error_In _ _ E).
Qed.

Lemma key_leb_total (a b : nat * Row) :
  key_leb a b = true \/ key_leb b a = true.
Proof.
  unfold key_leb.
  rewrite !orb_true_iff, !andb_true_iff, !Nat.ltb_lt, !Nat.eqb_eq, !Z.leb_le.
  lia.
Qed.

Lemma key_leb_trans (a b c : nat * Row) :
  key_leb a b = true -> key_leb b c = true -> key_leb a c = true.
Proof.
  unfold key_leb.
  rewrite !orb_true_iff, !andb_true_iff, !Nat.ltb_lt, !Nat.eqb_eq, !Z.leb_le.
  lia.
Qed.

Lemma bed_le_refl (r : Row) : bed_le r r.
Proof.
  unfold bed_le.
  rewrite (proj2 (natural_compare_eq (chr r) (chr r)) eq_refl). lia.
Qed.

(** The sort of lines 170-173 puts rows that are in [start] order into
    the order of the composite key. *)
Lemma sort_values_chr_start_sorted (rows : list Row) :
  StronglySorted (fun a b => (start a <= start b)%Z) rows ->
  StronglySorted bed_le (sort_values_chr_start rows).
Proof.
  intros Hrows. unfold sort_values_chr_start.
  set (col := map chr rows).
  set (ranks := argsort (index_natsorted col)).
  apply StronglySorted_map_In
    with (R := stable_le key_leb (fun _ _ => True)).
  2:{ apply stable_sort_stable.
      - apply key_leb_total.
      - apply key_leb_trans.
      - induction (combine ranks rows); constructor; [assumption|].
        now apply Forall_forall. }
  intros [k1 r1] [k2 r2] H1 H2 [Hle _]. simpl.
  apply (stable_sort_In key_leb), In_combine_nth_error in H1, H2.
  destruct H1 as (i1 & Hk1 & Hr1). destruct H2 as (i2 & Hk2 & Hr2).
  pose proof (index_natsorted_perm col) as Hperm.
  apply (argsort_inverse _ _ _ _ Hperm) in Hk1, Hk2.
  assert (Hc1 : nth_error col i1 = Some (chr r1))
    by (unfold col; now apply map_nth_error).
  assert (Hc2 : nth_error col i2 = Some (chr r2))
    by (unfold col; now apply map_nth_error).
  unfold key_leb in Hle. simpl in Hle.
  rewrite orb_true_iff, andb_true_iff, Nat.ltb_lt, Nat.eqb_eq, Z.leb_le
    in Hle.
  destruct Hle as [Hlt|[-> Hst]].
  - destruct (index_natsorted_order col k1 k2 i1 i2 _ _ Hlt Hk1 Hk2 Hc1 Hc2)
      as [Hnat Hstable].
    unfold bed_le. unfold natural_leb in Hnat, Hstable.
    rewrite (natural_compare_antisym (chr r1) (chr r2)) in Hstable.
    destruct (natural_compare (chr r1) (chr r2)); simpl in *;
      [|exact I|discriminate].
    specialize (Hstable eq_refl).
    exact (StronglySorted_nth_error _ _ _ _ _ _ Hrows Hstable Hr1 Hr2).
  - assert (i1 = i2) by congruence. subst.
    assert (r1 = r2) by congruence. subst. apply bed_le_refl.
Qed.

Lemma sort_values_chr_start_perm (rows : list Row) :
  Permutation (sort_values_chr_start rows) rows.
Proof.
  unfold sort_values_chr_start.
  set (ranks := argsort (index_natsorted (map chr rows))).
  assert (Hlen : length ranks = length rows)
    by (unfold ranks;
        now rewrite argsort_length, index_natsorted_length, length_map).
  eapply perm_trans; [apply Permutation_map, stable_sort_perm|].
  clearbody ranks. revert ranks Hlen.
  induction rows as [|r rows IH]; intros [|k ranks] Hlen; simpl in *;
    try discriminate; [apply perm_nil|].
  apply perm_skip, IH. lia.
Qed.

Lemma sort_values_start_sorted (rows : list Row) :
  StronglySorted (fun a b => (start a <= start b)%Z)
                 (sort_values_start rows).
Proof.
  unfold sort_values_start.
  set (leb := fun a b : Row => (start a <=? start b)%Z).
  rewrite <- (map_id (stable_sort leb rows)).
  apply StronglySorted_map_In
    with (R := stable_le leb (fun _ _ => True)).
  - intros a b _ _ [H _]. now apply Z.leb_le.
  - apply stable_sort_stable.
    + intros a b. unfold leb. rewrite !Z.leb_le. lia.
    + intros a b c. unfold leb. rewrite !Z.leb_le. lia.
    + induction rows; constructor; [assumption|]. now apply Forall_forall.
Qed.

Lemma sort_values_start_perm (rows : list Row) :
  Permutation (sort_values_start rows) rows.
Proof. apply stable_sort_perm. Qed.
End SortValues.

(* ================================================================= *)
(** ** Contig names *)

Lemma startswith_normalize (c : string) :
  startswith "chr" (normalize_chromosome c) = true.
Proof.
  unfold normalize_chromosome. destruct (startswith "chr" c) eqn:E.
  - exact E.
  - apply startswith_app.
Qed.

(** C9: contig normalisation is idempotent; a contig that starts with
    "chr" is returned unchanged, any other gets "chr" put in front, and
    the result always starts with "chr". *)
Theorem normalize_chromosome_idempotent (c : string) :
  normalize_chromosome (normalize_chromosome c) = normalize_chromosome c
  /\ ((exists rest, c = "chr" ++ rest) -> normalize_chromosome c = c)
  /\ (~ (exists rest, c = "chr" ++ rest) ->
      normalize_chromosome c = "chr" ++ c)
  /\ exists rest, normalize_chromosome c = "chr" ++ rest.
Proof.
  repeat split.
  - unfold normalize_chromosome at 1. now rewrite startswith_normalize.
  - intros [rest ->]. unfold normalize_chromosome.
    now rewrite startswith_app.
  - intros H. unfold normalize_chromosome.
    destruct (startswith "chr" c) eqn:E; [|reflexivity].
    destruct H. now apply startswith_inv.
  - apply startswith_inv, startswith_normalize.
Qed.

Lemma normalize_chromosome_idempotent_on_17 :
  normalize_chromosome "17" = "chr17"
  /\ normalize_chromosome (normalize_chromosome "17") = "chr17".
Proof.
  pose proof (normalize_chromosome_idempotent "17") as [H _].
  split; [reflexivity | rewrite H; reflexivity].
Defined.

(* ================================================================= *)
(** ** Contig filtering *)

Lemma str_contains_on_contig (pat : string) (r : Record_) :
  str_contains pat (r_chr r) = true <-> on_contig_with pat r.
Proof.
  unfold on_contig_with. destruct (r_chr r) as [c|]; simpl.
  - rewrite contains_Substring. split.
    + intros H. now exists c.
    + intros (c' & E & H). now inversion E; subst.
  - split; [discriminate | intros (c & E & _); discriminate].
Qed.

Lemma excluded_spec (remove_alt remove_fix : bool) (r : Record_) :
  excluded remove_alt remove_fix r = true <->
  (remove_alt = true /\ on_contig_with "alt" r) \/
  (remove_fix = true /\ on_contig_with "fix" r).
Proof.
  unfold excluded.
  now rewrite orb_true_iff, !andb_true_iff, !str_contains_on_contig.
Qed.

Lemma filter_contigs_filter (remove_alt remove_fix : bool) (df : DataFrame) :
  filter_contigs remove_alt remove_fix df =
  filter (fun r => negb (excluded remove_alt remove_fix r)) df.
Proof.
  unfold filter_contigs, excluded.
  induction df as [|r df IH];
    [destruct remove_alt, remove_fix; reflexivity|].
  destruct remove_alt, remove_fix; cbn [andb orb negb filter] in *;
    destruct (str_contains "alt" (r_chr r)); cbn [andb orb negb filter];
    destruct (str_contains "fix" (r_chr r)); cbn [andb orb negb filter];
    rewrite <- ?IH; reflexivity.
Qed.

(** C8: contig filtering keeps the records in their order and drops
    exactly those whose contig contains "alt" (case-sensitive) when
    [remove_alt] is set, and those whose contig contains "fix" when
    [remove_fix] is set; with both flags off nothing is dropped.  A
    record on [chr19_GL000209v2_alt] is dropped under [remove_alt] and
    kept without it. *)
Theorem filter_contigs_drops_exactly
        (remove_alt remove_fix : bool) (df : DataFrame) :
  filter_contigs remove_alt remove_fix df =
    filter (fun r => negb (excluded remove_alt remove_fix r)) df
  /\ (forall r,
        In r (filter_contigs remove_alt remove_fix df) <->
        In r df /\
        ~ ((remove_alt = true /\ on_contig_with "alt" r) \/
           (remove_fix = true /\ on_contig_with "fix" r)))
  /\ filter_contigs false false df = df
  /\ (forall r,
        r_chr r = Some "chr19_GL000209v2_alt" ->
        filter_contigs true remove_fix [r] = [] /\
        filter_contigs false false [r] = [r])
  /\ (forall r,
        r_chr r = Some "chr1_ALT_FIX" -> filter_contigs true true [r] = [r]).
Proof.
  split; [apply filter_contigs_filter|]. split; [|split; [|split]].
  - intros r. rewrite filter_contigs_filter, filter_In, negb_true_iff.
    rewrite <- excluded_spec.
    destruct (excluded remove_alt remove_fix r); intuition congruence.
  - reflexivity.
  - intros r E. rewrite !filter_contigs_filter. cbn [filter].
    unfold excluded. rewrite E.
    split; [destruct remove_fix; reflexivity | reflexivity].
  - intros r E. rewrite filter_contigs_filter. cbn [filter].
    unfold excluded. rewrite E. reflexivity.
Qed.

Lemma filter_contigs_drops_exactly_example :
  filter_contigs true false
    [mkRecord (Some "chr19_GL000209v2_alt") (Some 1) (Some 2) (Some "G1");
     mkRecord (Some "chr17") (Some 3) (Some 4) (Some "G2");
     mkRecord (Some "chr1_KN196472v1_fix") (Some 5) (Some 6) (Some "G3")]
  = [mkRecord (Some "chr17") (Some 3) (Some 4) (Some "G2");
     mkRecord (Some "chr1_KN196472v1_fix") (Some 5) (Some 6) (Some "G3")].
Proof.
  rewrite (proj1 (filter_contigs_drops_exactly true false
    [mkRecord (Some "chr19_GL000209v2_alt") (Some 1) (Some 2) (Some "G1");
     mkRecord (Some "chr17") (Some 3) (Some 4) (Some "G2");
     mkRecord (Some "chr1_KN196472v1_fix") (Some 5) (Some 6) (Some "G3")])).
  reflexivity.
Defined.

(* ================================================================= *)
(** ** Coordinate repair *)

Lemma fix_reverse_row_repaired (r : Record_) (r' : Row) :
  fix_reverse_row r = Ok r' -> repaired r r'.
Proof.
  unfold fix_reverse_row, repaired.
  destruct (r_start r) as [s|], (r_end r) as [e|]; try discriminate.
  destruct (s >? e) eqn:E; intros H; inversion H; subst; simpl;
    (split; [reflexivity|]; split; [reflexivity|]); exists s, e;
    rewrite ?Z.gtb_ltb, ?Z.ltb_lt, ?Z.ltb_ge in E; repeat split; lia.
Qed.

Lemma fix_reverse_row_total (r : Record_) :
  has_coordinates r -> exists r', fix_reverse_row r = Ok r'.
Proof.
  unfold has_coordinates, fix_reverse_row. intros [Hs He].
  destruct (r_start r) as [s|], (r_end r) as [e|]; try congruence.
  destruct (s >? e); eauto.
Qed.

Lemma fix_reverse_row_fixed (r : Row) :
  start r <= end_ r -> fix_reverse_row (record_of_row r) = Ok r.
Proof.
  intros H. unfold fix_reverse_row. simpl.
  destruct (start r >? end_ r) eqn:E.
  - rewrite Z.gtb_ltb, Z.ltb_lt in E. lia.
  - now destruct r.
Qed.

Lemma fix_reverse_cons (r : Record_) (df : DataFrame) (rows : list Row) :
  fix_reverse (r :: df) = Ok rows ->
  exists r' rows', rows = r' :: rows' /\
                   fix_reverse_row r = Ok r' /\ fix_reverse df = Ok rows'.
Proof.
  simpl. destruct (fix_reverse_row r) as [r'|]; simpl; [|discriminate].
  destruct (fix_reverse df) as [rows'|]; simpl; [|discriminate].
  intros H. inversion H. eauto.
Qed.

Lemma fix_reverse_Forall2 (df : DataFrame) (rows : list Row) :
  fix_reverse df = Ok rows -> Forall2 repaired df rows.
Proof.
  revert rows. induction df as [|r df IH]; intros rows H.
  - inversion H. constructor.
  - apply fix_reverse_cons in H. destruct H as (r' & rows' & -> & Hr & Hdf).
    constructor; [now apply fix_reverse_row_repaired | now apply IH].
Qed.

Lemma fix_reverse_total (df : DataFrame) :
  Forall has_coordinates df -> exists rows, fix_reverse df = Ok rows.
Proof.
  induction 1 as [|r df Hr _ [rows IH]]; simpl.
  - now exists [].
  - destruct (fix_reverse_row_total r Hr) as [r' ->]. rewrite IH. simpl.
    eauto.
Qed.

Lemma fix_reverse_raises (df : DataFrame) :
  Exists (fun r => ~ has_coordinates r) df ->
  fix_reverse df = Raise ConversionError.
Proof.
  induction 1 as [r df Hr|r df _ IH]; simpl.
  - unfold fix_reverse_row, has_coordinates in *.
    destruct (r_start r), (r_end r); simpl; try reflexivity.
    destruct Hr. split; discriminate.
  - rewrite IH. destruct (fix_reverse_row r) as [r'|e] eqn:E; simpl.
    + reflexivity.
    + unfold fix_reverse_row in E.
      destruct (r_start r), (r_end r); try (now inversion E).
      destruct (_ >? _); discriminate.
Qed.

Lemma fix_reverse_fixed (rows : list Row) :
  Forall (fun r => start r <= end_ r) rows ->
  fix_reverse (map record_of_row rows) = Ok rows.
Proof.
  induction 1 as [|r rows Hr _ IH]; simpl.
  - reflexivity.
  - now rewrite (fix_reverse_row_fixed r Hr), IH.
Qed.

Lemma repaired_ordered (r : Record_) (r' : Row) :
  repaired r r' -> start r' <= end_ r'.
Proof. intros (_ & _ & s & e & _ & _ & -> & ->). lia. Qed.

(** C7: on a frame whose coordinate cells all hold numbers the repair
    loop ends; afterwards every row has [start <= end] (its coordinates
    are the smaller and the larger of the two it came with, its contig
    and label are untouched), and running the loop again over the
    repaired rows changes nothing. *)
Theorem fix_reverse_orders_and_is_idempotent (df : DataFrame) :
  Forall has_coordinates df ->
  exists rows,
    fix_reverse df = Ok rows
    /\ Forall (fun r => start r <= end_ r) rows
    /\ Forall2 repaired df rows
    /\ fix_reverse (map record_of_row rows) = Ok rows.
Proof.
  intros H. destruct (fix_reverse_total df H) as [rows Hrows].
  exists rows. pose proof (fix_reverse_Forall2 _ _ Hrows) as H2.
  assert (Hord : Forall (fun r => start r <= end_ r) rows).
  { clear Hrows H. induction H2; constructor; [|assumption].
    eapply repaired_ordered; eassumption. }
  repeat split; try assumption. now apply fix_reverse_fixed.
Qed.

Lemma fix_reverse_orders_and_is_idempotent_example :
  exists rows,
    fix_reverse [mkRecord (Some "chr17") (Some 100) (Some 50) (Some "A");
                 mkRecord (Some "chr17") (Some 30) (Some 80) (Some "A")]
      = Ok rows
    /\ Forall (fun r => start r <= end_ r) rows
    /\ Forall2 repaired
         [mkRecord (Some "chr17") (Some 100) (Some 50) (Some "A");
          mkRecord (Some "chr17") (Some 30) (Some 80) (Some "A")] rows
    /\ fix_reverse (map record_of_row rows) = Ok rows.
Proof.
  apply (fix_reverse_orders_and_is_idempotent
           [mkRecord (Some "chr17") (Some 100) (Some 50) (Some "A");
            mkRecord (Some "chr17") (Some 30) (Some 80) (Some "A")]).
  repeat constructor; simpl; discriminate.
Defined.

(* ================================================================= *)
(** ** Grouping and merge *)

Lemma in_group_spec (g : string) (r : Row) :
  in_group g r = true <-> gene r = Some g.
Proof.
  unfold in_group. destruct (gene r) as [g'|].
  - rewrite String.eqb_eq. split; congruence.
  - split; discriminate.
Qed.

Lemma insert_key_In (g k : string) (keys : list string) :
  In k (insert_key g keys) <-> k = g \/ In k keys.
Proof.
  induction keys as [|k' keys IH]; simpl.
  - intuition.
  - destruct (String.compare g k') eqn:E; simpl.
    + apply String.compare_eq_iff in E. subst. intuition.
    + intuition.
    + rewrite IH. intuition.
Qed.

Lemma insert_key_sorted (g : string) (keys : list string) :
  StronglySorted string_lt keys ->
  StronglySorted string_lt (insert_key g keys).
Proof.
  induction 1 as [|k keys Hs IH Hk]; simpl.
  - repeat constructor.
  - destruct (String.compare g k) eqn:E.
    + now constructor.
    + constructor; [now constructor|]. constructor; [exact E|].
      rewrite Forall_forall in *. intros z Hz.
      eapply string_compare_lt_trans; [exact E | now apply Hk].
    + constructor; [exact IH|].
      rewrite Forall_forall in *. intros z Hz.
      apply insert_key_In in Hz. destruct Hz as [->|Hz]; [|now apply Hk].
      unfold string_lt. rewrite String.compare_antisym, E. reflexivity.
Qed.

Lemma group_keys_In (g : string) (rows : list Row) :
  In g (group_keys rows) <-> In (Some g) (map gene rows).
Proof.
  induction rows as [|r rows IH]; simpl; [tauto|].
  destruct (gene r) as [g'|].
  - rewrite insert_key_In, IH. split; intros [H|H]; auto; left; congruence.
  - rewrite IH. split; [auto | intros [H|H]; [discriminate | exact H]].
Qed.

Lemma group_keys_sorted (rows : list Row) :
  StronglySorted string_lt (group_keys rows).
Proof.
  induction rows as [|r rows IH]; simpl; [constructor|].
  destruct (gene r); [now apply insert_key_sorted | exact IH].
Qed.

Lemma sorted_filter_eqb (g : string) (keys : list string) :
  StronglySorted string_lt keys -> In g keys ->
  filter (fun k => String.eqb k g) keys = [g].
Proof.
  induction 1 as [|k keys Hs IH Hk]; intros Hg; [contradiction|].
  simpl. destruct (String.eqb k g) eqn:E.
  - apply String.eqb_eq in E. subst k. f_equal.
    clear IH Hg Hs. induction keys as [|k keys IH]; [reflexivity|].
    inversion Hk as [|? ? Hlt Hk']; subst. simpl.
    destruct (String.eqb k g) eqn:E; [|now apply IH].
    apply String.eqb_eq in E. subst k. unfold string_lt in Hlt.
    rewrite string_compare_refl in Hlt. discriminate.
  - apply String.eqb_neq in E. destruct Hg as [->|Hg]; [contradiction|].
    now apply IH.
Qed.

Lemma filter_map_comm {A B : Type} (p : B -> bool) (f : A -> B) (l : list A) :
  filter p (map f l) = map f (filter (fun x => p (f x)) l).
Proof.
  induction l as [|x l IH]; simpl; [reflexivity|].
  destruct (p (f x)); simpl; now rewrite IH.
Qed.

Lemma groupby_agg_group (rows : list Row) (g : string) :
  In (Some g) (map gene rows) ->
  filter (in_group g) (groupby_agg rows)
  = [merge_group g (filter (in_group g) rows)].
Proof.
  intros H. unfold groupby_agg. rewrite filter_map_comm.
  change (fun x => in_group g (merge_group x (filter (in_group x) rows)))
    with (fun k => String.eqb k g).
  rewrite sorted_filter_eqb;
    [reflexivity | apply group_keys_sorted | now apply group_keys_In].
Qed.

Lemma fold_left_min_spec (l : list Z) (x : Z) :
  In (fold_left Z.min l x) (x :: l)
  /\ Forall (fun y => fold_left Z.min l x <= y) (x :: l).
Proof.
  revert x. induction l as [|y l IH]; intros x; simpl.
  - split; [now left | repeat constructor; lia].
  - destruct (IH (Z.min x y)) as [Hin Hall]. split.
    + destruct Hin as [E|Hin]; [|now right; right].
      rewrite <- E. destruct (Z.min_spec x y) as [[_ ->]|[_ ->]]; auto.
    + inversion Hall as [|? ? Hm Hl]; subst.
      repeat constructor; [lia | lia | exact Hl].
Qed.

Lemma fold_left_max_spec (l : list Z) (x : Z) :
  In (fold_left Z.max l x) (x :: l)
  /\ Forall (fun y => y <= fold_left Z.max l x) (x :: l).
Proof.
  revert x. induction l as [|y l IH]; intros x; simpl.
  - split; [now left | repeat constructor; lia].
  - destruct (IH (Z.max x y)) as [Hin Hall]. split.
    + destruct Hin as [E|Hin]; [|now right; right].
      rewrite <- E. destruct (Z.max_spec x y) as [[_ ->]|[_ ->]]; auto.
    + inversion Hall as [|? ? Hm Hl]; subst.
      repeat constructor; [lia | lia | exact Hl].
Qed.

Lemma agg_min_spec (col : list Z) :
  col <> [] -> In (agg_min col) col /\ Forall (fun y => agg_min col <= y) col.
Proof.
  destruct col as [|x col]; [congruence | intros _].
  apply fold_left_min_spec.
Qed.

Lemma agg_max_spec (col : list Z) :
  col <> [] -> In (agg_max col) col /\ Forall (fun y => y <= agg_max col) col.
Proof.
  destruct col as [|x col]; [congruence | intros _].
  apply fold_left_max_spec.
Qed.

Lemma group_members_nonempty (rows : list Row) (g : string) :
  In (Some g) (map gene rows) -> filter (in_group g) rows <> [].
Proof.
  intros H. apply in_map_iff in H. destruct H as (r & Hg & Hr).
  assert (Hin : In r (filter (in_group g) rows))
    by (apply filter_In; split; [exact Hr | now apply in_group_spec]).
  intros E. rewrite E in Hin. contradiction.
Qed.

(** C5: the merge step produces, for every label [g] that occurs among
    the rows, exactly one interval with that label.  The members of its
    group are the rows whose label is [g], by string equality.  Its start
    is the least start of the members, its end their greatest end, its
    contig the first contig cell of the group that is present (the first
    member's, when that member has one).  Every interval produced
    belongs to a label of the input.  Two rows of one label with spans
    (10,50) and (5,40) merge to (5,50). *)
Theorem groupby_agg_one_interval_per_label :
  (forall (rows : list Row) (g : string),
      In (Some g) (map gene rows) ->
      exists m,
        filter (in_group g) (groupby_agg rows) = [m]
        /\ gene m = Some g
        /\ (forall r, In r (filter (in_group g) rows) <->
                      In r rows /\ gene r = Some g)
        /\ In (start m) (map start (filter (in_group g) rows))
        /\ Forall (fun r => start m <= start r) (filter (in_group g) rows)
        /\ In (end_ m) (map end_ (filter (in_group g) rows))
        /\ Forall (fun r => end_ r <= end_ m) (filter (in_group g) rows)
        /\ chr m = agg_first (map chr (filter (in_group g) rows))
        /\ (forall r0 rest,
              filter (in_group g) rows = r0 :: rest ->
              chr r0 <> None -> chr m = chr r0))
  /\ (forall (rows : list Row) (m : Row),
        In m (groupby_agg rows) ->
        exists g, gene m = Some g /\ In (Some g) (map gene rows))
  /\ (forall c : option string,
        groupby_agg [mkRow c 10 50 (Some "A"); mkRow c 5 40 (Some "A")]
        = [mkRow c 5 50 (Some "A")]).
Proof.
  split; [|split].
  - intros rows g Hg.
    exists (merge_group g (filter (in_group g) rows)).
    pose proof (group_members_nonempty rows g Hg) as Hne.
    set (members := filter (in_group g) rows) in *.
    assert (Hs : map start members <> [])
      by (destruct members; [congruence | discriminate]).
    assert (He : map end_ members <> [])
      by (destruct members; [congruence | discriminate]).
    destruct (agg_min_spec _ Hs) as [Hmin1 Hmin2].
    destruct (agg_max_spec _ He) as [Hmax1 Hmax2].
    rewrite Forall_map in Hmin2, Hmax2.
    split; [now apply groupby_agg_group|].
    split; [reflexivity|].
    split; [intros r; unfold members;
            now rewrite filter_In, in_group_spec|].
    repeat (split; [assumption|]).
    split; [reflexivity|].
    intros r0 rest E H0. simpl. rewrite E. simpl.
    destruct (chr r0); [reflexivity | congruence].
  - intros rows m Hm. unfold groupby_agg in Hm.
    apply in_map_iff in Hm. destruct Hm as (g & <- & Hg).
    exists g. split; [reflexivity | now apply group_keys_In].
  - intros [c|]; reflexivity.
Qed.

Lemma groupby_agg_one_interval_per_label_example :
  exists m,
    filter (in_group "BRCA1")
           (groupby_agg [mkRow (Some "chr17") 10 50 (Some "BRCA1");
                         mkRow (Some "chr13") 7 9 (Some "BRCA2");
                         mkRow (Some "chr17") 5 40 (Some "BRCA1")]) = [m]
    /\ m = mkRow (Some "chr17") 5 50 (Some "BRCA1").
Proof.
  destruct (proj1 groupby_agg_one_interval_per_label
              [mkRow (Some "chr17") 10 50 (Some "BRCA1");
               mkRow (Some "chr13") 7 9 (Some "BRCA2");
               mkRow (Some "chr17") 5 40 (Some "BRCA1")] "BRCA1")
    as (m & Hm & _).
  - simpl. auto.
  - exists m. split; [exact Hm|]. vm_compute in Hm. now inversion Hm.
Defined.

(* ================================================================= *)
(** ** [process_bed_file] as a whole *)

Lemma process_bed_file_unfold (df : DataFrame) (extend_bp : Z)
      (remove_alt remove_fix : bool) :
  process_bed_file df extend_bp remove_alt remove_fix =
  match fix_reverse (filter_contigs remove_alt remove_fix df) with
  | Ok rows =>
      Ok (sort_values_chr_start
            (sort_values_start
               (extend_regions extend_bp (groupby_agg rows))))
  | Raise e => Raise e
  end.
Proof. reflexivity. Qed.

Lemma filter_contigs_Forall (P : Record_ -> Prop)
      (remove_alt remove_fix : bool) (df : DataFrame) :
  Forall P df -> Forall P (filter_contigs remove_alt remove_fix df).
Proof.
  rewrite filter_contigs_filter, !Forall_forall. intros H r Hr.
  apply filter_In in Hr. now apply H.
Qed.

Lemma process_bed_file_total (df : DataFrame) (extend_bp : Z)
      (remove_alt remove_fix : bool) :
  Forall has_coordinates df ->
  exists out, process_bed_file df extend_bp remove_alt remove_fix = Ok out.
Proof.
  intros H. rewrite process_bed_file_unfold.
  destruct (fix_reverse_total _
              (filter_contigs_Forall _ remove_alt remove_fix _ H))
    as [rows ->].
  eauto.
Qed.

Lemma process_bed_file_sorted (df : DataFrame) (extend_bp : Z)
      (remove_alt remove_fix : bool) (out : list Row) :
  process_bed_file df extend_bp remove_alt remove_fix = Ok out ->
  StronglySorted bed_le out.
Proof.
  rewrite process_bed_file_unfold.
  destruct (fix_reverse _) as [rows|]; [|discriminate].
  intros H. inversion H; subst.
  apply sort_values_chr_start_sorted, sort_values_start_sorted.
Qed.

(** C4: whenever [process_bed_file] returns, and it does on every frame
    whose coordinate cells hold numbers, its rows are in the order of the
    composite key: of two rows the earlier one has the naturally smaller
    contig, or a naturally equal contig and a [start] that is not
    greater.  Rows on chr10, chr2, chr1 and chrX come out as chr1, chr2,
    chr10, chrX; natural order puts chr2 before chr10 where the order of
    the characters puts chr10 first. *)
Theorem process_bed_file_sorted_by_contig_then_start :
  (forall df extend_bp remove_alt remove_fix,
      Forall has_coordinates df ->
      exists out,
        process_bed_file df extend_bp remove_alt remove_fix = Ok out
        /\ StronglySorted bed_le out)
  /\ (forall df extend_bp remove_alt remove_fix out,
        process_bed_file df extend_bp remove_alt remove_fix = Ok out ->
        StronglySorted bed_le out)
  /\ (exists out,
        process_bed_file
          [mkRecord (Some "chr10") (Some 5) (Some 9) (Some "G1");
           mkRecord (Some "chr2") (Some 7) (Some 8) (Some "G2");
           mkRecord (Some "chr1") (Some 3) (Some 4) (Some "G3");
           mkRecord (Some "chrX") (Some 1) (Some 2) (Some "G4")]
          0 true true = Ok out
        /\ map chr out
           = [Some "chr1"; Some "chr2"; Some "chr10"; Some "chrX"])
  /\ natural_compare (Some "chr2") (Some "chr10") = Lt
  /\ String.compare "chr10" "chr2" = Lt.
Proof.
  split; [|split; [|split; [|split]]].
  - intros df extend_bp remove_alt remove_fix H.
    destruct (process_bed_file_total df extend_bp remove_alt remove_fix H)
      as [out Hout].
    exists out. split; [exact Hout|]. eapply process_bed_file_sorted, Hout.
  - apply process_bed_file_sorted.
  - eexists. split; vm_compute; reflexivity.
  - reflexivity.
  - reflexivity.
Qed.

Lemma process_bed_file_sorted_by_contig_then_start_example :
  exists out,
    process_bed_file
      [mkRecord (Some "chr2") (Some 90) (Some 70) (Some "G1");
       mkRecord (Some "chr10") (Some 5) (Some 9) (Some "G2");
       mkRecord (Some "chr2") (Some 20) (Some 30) (Some "G3")]
      10 true true = Ok out
    /\ StronglySorted bed_le out.
Proof.
  apply (proj1 process_bed_file_sorted_by_contig_then_start).
  repeat constructor; simpl; discriminate.
Defined.

(** C3: the two records of label A, one on contig "17" with
    coordinates (100, 50) and one on "chr17" with (30, 80), normalised
    and then processed with [extend_bp = 0] and both filters on, give the
    single row (chr17, 30, 100, A).  The engine alone gives the same row
    when only the contigs are normalised and the reversed coordinates are
    left to its repair step. *)
Theorem end_to_end_scenario :
  process_bed_file
    (map record_of_position
         [normalize "A" (mkGeneData (Some "A") (Some "17")
                                    (Some 100) (Some 50) None);
          normalize "A" (mkGeneData (Some "A") (Some "chr17")
                                    (Some 30) (Some 80) None)])
    0 true true
  = Ok [mkRow (Some "chr17") 30 100 (Some "A")]
  /\ process_bed_file
       [mkRecord (Some (normalize_chromosome "17")) (Some 100) (Some 50)
                 (Some "A");
        mkRecord (Some (normalize_chromosome "chr17")) (Some 30) (Some 80)
                 (Some "A")]
       0 true true
     = Ok [mkRow (Some "chr17") 30 100 (Some "A")].
Proof. split; vm_compute; reflexivity. Qed.

(** Without the normaliser in front, the merged row carries the contig
    of the first record as it was given. *)
Lemma end_to_end_scenario_unnormalised :
  process_bed_file
    [mkRecord (Some "17") (Some 100) (Some 50) (Some "A");
     mkRecord (Some "chr17") (Some 30) (Some 80) (Some "A")]
    0 true true
  = Ok [mkRow (Some "17") 30 100 (Some "A")].
Proof. vm_compute. reflexivity. Qed.

(* ================================================================= *)
(** ** Extension *)

Lemma extend_regions_map (extend_bp : Z) (merged : list Row) :
  0 < extend_bp ->
  extend_regions extend_bp merged = map (extend extend_bp) merged.
Proof.
  intros H. unfold extend_regions.
  destruct (extend_bp >? 0) eqn:E; [reflexivity|].
  rewrite Z.gtb_ltb, Z.ltb_ge in E. lia.
Qed.

Lemma extend_regions_off (extend_bp : Z) (merged : list Row) :
  extend_bp <= 0 -> extend_regions extend_bp merged = merged.
Proof.
  intros H. unfold extend_regions.
  destruct (extend_bp >? 0) eqn:E; [|reflexivity].
  rewrite Z.gtb_ltb, Z.ltb_lt in E. lia.
Qed.

(** With [extend_bp > 0] the rows that [process_bed_file] returns are
    the extended rows of the run without extension, up to their order. *)
Lemma process_bed_file_extends (df : DataFrame) (extend_bp : Z)
      (remove_alt remove_fix : bool) (out0 : list Row) :
  0 < extend_bp ->
  process_bed_file df 0 remove_alt remove_fix = Ok out0 ->
  exists out,
    process_bed_file df extend_bp remove_alt remove_fix = Ok out
    /\ Permutation out (map (extend extend_bp) out0).
Proof.
  intros Hpos. rewrite !process_bed_file_unfold.
  destruct (fix_reverse _) as [rows|]; [|discriminate].
  intros H. inversion H; subst. eexists. split; [reflexivity|].
  rewrite (extend_regions_map _ _ Hpos), (extend_regions_off 0) by lia.
  set (merged := groupby_agg rows).
  eapply perm_trans; [apply sort_values_chr_start_perm|].
  eapply perm_trans; [apply sort_values_start_perm|].
  apply Permutation_map, Permutation_sym.
  eapply perm_trans; [apply sort_values_chr_start_perm|].
  apply sort_values_start_perm.
Qed.

Lemma wrap64_in_range (z : Z) : in_int64 z -> wrap64 z = z.
Proof.
  unfold in_int64, wrap64, int64_min, int64_max. intros H.
  rewrite Z.mod_small; lia.
Qed.

Lemma extend_in_range (extend_bp : Z) (m : Row) :
  extends_in_range extend_bp m ->
  extend extend_bp m
  = mkRow (chr m) (Z.max 0 (start m - extend_bp)) (end_ m + extend_bp)
          (gene m).
Proof.
  intros (_ & _ & _ & Hs & He). unfold extend.
  now rewrite (wrap64_in_range _ Hs), (wrap64_in_range _ He).
Qed.

(** C6, amended: with [extend_bp > 0] the extension step turns every
    merged interval, and each on its own, into the interval from
    [max(0, start - extend_bp)] to [end + extend_bp], as long as
    [extend_bp], the coordinates, [start - extend_bp] and
    [end + extend_bp] stay inside the signed 64-bit range of the
    columns; the end is not clamped (it grows by
    exactly [extend_bp]) and the start is clamped at zero only where it
    would go negative.  (5,50) becomes (0,60) and (100,200) becomes
    (90,210) under [extend_bp = 10].  With [extend_bp = 0] the step
    changes nothing.  Under the same condition the rows that
    [process_bed_file] returns with [extend_bp > 0] are, up to their
    order, the rows it returns with [extend_bp = 0], each one extended
    so. *)
Theorem extend_regions_clamps_start_only (extend_bp : Z) (merged : list Row) :
  (0 < extend_bp ->
   Forall (extends_in_range extend_bp) merged ->
   Forall2 (fun m m' =>
              start m' = Z.max 0 (start m - extend_bp)
              /\ end_ m' = end_ m + extend_bp
              /\ (extend_bp <= start m -> start m' = start m - extend_bp)
              /\ (start m < extend_bp -> start m' = 0)
              /\ chr m' = chr m /\ gene m' = gene m)
           merged (extend_regions extend_bp merged))
  /\ (extend_bp = 0 -> extend_regions extend_bp merged = merged)
  /\ (forall c g,
        extend_regions 10 [mkRow c 5 50 g; mkRow c 100 200 g]
        = [mkRow c 0 60 g; mkRow c 90 210 g])
  /\ (forall df remove_alt remove_fix out0,
        0 < extend_bp ->
        process_bed_file df 0 remove_alt remove_fix = Ok out0 ->
        Forall (extends_in_range extend_bp) out0 ->
        exists out,
          process_bed_file df extend_bp remove_alt remove_fix = Ok out
          /\ Permutation out
               (map (fun m => mkRow (chr m)
                                    (Z.max 0 (start m - extend_bp))
                                    (end_ m + extend_bp) (gene m))
                    out0)).
Proof.
  split; [|split; [|split]].
  - intros H Hrange. rewrite (extend_regions_map _ _ H).
    induction Hrange as [|m merged Hm _ IH]; cbn [map]; constructor;
      [|exact IH].
    rewrite (extend_in_range _ _ Hm). cbn [start end_ chr gene].
    repeat split; lia.
  - intros ->. now apply extend_regions_off.
  - intros c g. vm_compute. reflexivity.
  - intros df remove_alt remove_fix out0 Hpos H Hrange.
    destruct (process_bed_file_extends df extend_bp remove_alt remove_fix
                                       out0 Hpos H) as (out & Hout & Hperm).
    exists out. split; [exact Hout|].
    rewrite (map_ext_in _ (extend extend_bp) out0); [exact Hperm|].
    intros m Hm. symmetry. apply extend_in_range.
    rewrite Forall_forall in Hrange. now apply Hrange.
Qed.

Lemma extend_regions_clamps_start_only_example :
  Forall2 (fun m m' =>
             start m' = Z.max 0 (start m - 10) /\ end_ m' = end_ m + 10
             /\ (10 <= start m -> start m' = start m - 10)
             /\ (start m < 10 -> start m' = 0)
             /\ chr m' = chr m /\ gene m' = gene m)
          [mkRow (Some "chr1") 5 50 (Some "A");
           mkRow (Some "chr2") 100 200 (Some "B")]
          (extend_regions 10 [mkRow (Some "chr1") 5 50 (Some "A");
                              mkRow (Some "chr2") 100 200 (Some "B")]).
Proof.
  apply (proj1 (extend_regions_clamps_start_only 10
                  [mkRow (Some "chr1") 5 50 (Some "A");
                   mkRow (Some "chr2") 100 200 (Some "B")])).
  - lia.
  - repeat apply Forall_cons; try apply Forall_nil;
      unfold extends_in_range, in_int64, int64_min, int64_max;
      cbn [start end_]; lia.
Defined.

(** C6 as stated fails: the columns are 64 bits wide, and an end that
    [extend_bp] would carry past 2^63 - 1 wraps around to a negative
    number instead of growing by [extend_bp]. *)
Lemma extension_wraps_at_the_int64_bound :
  extend_regions 1 [mkRow (Some "chr1") 1 9223372036854775807 (Some "A")]
  = [mkRow (Some "chr1") 0 (-9223372036854775808) (Some "A")]
  /\ -9223372036854775808 <> 9223372036854775807 + 1.
Proof. split; [vm_compute; reflexivity | lia]. Qed.

(** C10: the extension step leaves the contig and the label of every
    row as they are and neither adds nor removes a row: the
    (contig, label) pairs before and after it are the same, row by row,
    hence as a multiset too.  Accordingly the rows that
    [process_bed_file] returns with [extend_bp > 0] carry the same
    (contig, label) pairs, as a multiset, and are as many as those it
    returns without extension. *)
Theorem extend_regions_frame (extend_bp : Z) (merged : list Row) :
  map (fun m => (chr m, gene m)) (extend_regions extend_bp merged)
  = map (fun m => (chr m, gene m)) merged
  /\ Permutation (map (fun m => (chr m, gene m))
                      (extend_regions extend_bp merged))
                 (map (fun m => (chr m, gene m)) merged)
  /\ length (extend_regions extend_bp merged) = length merged
  /\ (forall df remove_alt remove_fix out0,
        0 < extend_bp ->
        process_bed_file df 0 remove_alt remove_fix = Ok out0 ->
        exists out,
          process_bed_file df extend_bp remove_alt remove_fix = Ok out
          /\ Permutation (map (fun m => (chr m, gene m)) out)
                         (map (fun m => (chr m, gene m)) out0)
          /\ length out = length out0).
Proof.
  assert (H : map (fun m => (chr m, gene m)) (extend_regions extend_bp merged)
              = map (fun m => (chr m, gene m)) merged).
  { unfold extend_regions. destruct (extend_bp >? 0); [|reflexivity].
    rewrite map_map. reflexivity. }
  split; [exact H|]. split; [|split].
  - rewrite H. apply Permutation_refl.
  - apply (f_equal (@length _)) in H. now rewrite !length_map in H.
  - intros df remove_alt remove_fix out0 Hpos Hout0.
    destruct (process_bed_file_extends _ _ _ _ _ Hpos Hout0)
      as (out & Hout & Hperm).
    exists out. split; [exact Hout|].
    assert (Hcg : Permutation (map (fun m => (chr m, gene m)) out)
                              (map (fun m => (chr m, gene m)) out0)).
    { apply (Permutation_map (fun m => (chr m, gene m))) in Hperm.
      now rewrite map_map in Hperm. }
    split; [exact Hcg|].
    apply Permutation_length in Hcg. now rewrite !length_map in Hcg.
Qed.

Lemma extend_regions_frame_example :
  exists out,
    process_bed_file
      [mkRecord (Some "chr2") (Some 90) (Some 70) (Some "G1");
       mkRecord (Some "chr10") (Some 5) (Some 9) (Some "G2")]
      10 true true = Ok out
    /\ Permutation (map (fun m => (chr m, gene m)) out)
                   [(Some "chr2", Some "G1"); (Some "chr10", Some "G2")]
    /\ length out = 2%nat.
Proof.
  apply (proj2 (proj2 (proj2 (extend_regions_frame 10 [])))
           [mkRecord (Some "chr2") (Some 90) (Some 70) (Some "G1");
            mkRecord (Some "chr10") (Some 5) (Some 9) (Some "G2")]
           true true
           [mkRow (Some "chr2") 70 90 (Some "G1");
            mkRow (Some "chr10") 5 9 (Some "G2")]).
  - lia.
  - vm_compute. reflexivity.
Defined.

(* ================================================================= *)
(** ** Empty input and records without a field *)

Lemma process_bed_file_all_filtered (df : DataFrame) (extend_bp : Z)
      (remove_alt remove_fix : bool) :
  filter_contigs remove_alt remove_fix df = [] ->
  process_bed_file df extend_bp remove_alt remove_fix = Ok [].
Proof.
  intros H. rewrite process_bed_file_unfold, H. simpl.
  unfold extend_regions. now destruct (extend_bp >? 0).
Qed.

Lemma fix_reverse_error (df : DataFrame) (e : Error) :
  fix_reverse df = Raise e ->
  e = ConversionError.
Proof.
  induction df as [|r df IH]; cbn [fix_reverse]; [discriminate|].
  unfold fix_reverse_row.
  destruct (r_start r) as [s|], (r_end r) as [e'|]; cbn [bind];
    try (intros H; inversion H; reflexivity).
  destruct (s >? e'); cbn [bind];
    (destruct (fix_reverse df) as [rows|e0]; cbn [bind];
     [discriminate | intros H; inversion H; subst; now apply IH]).
Qed.

Lemma generate_bed_no_genes (genes : list JsonRecord) (extend_bp : Z) :
  generate_bed genes extend_bp
    = Raise (HTTPException 400 "No genes provided")
  <-> genes = [].
Proof.
  split; [|now intros ->].
  destruct genes as [|r genes]; [reflexivity|]. unfold generate_bed.
  destruct (has_chr _); cbn [negb]; [|intros H; discriminate H].
  destruct (has_start _); cbn [negb]; [|intros H; discriminate H].
  destruct (has_end _); cbn [negb]; [|intros H; discriminate H].
  destruct (has_gene _); cbn [negb]; [|intros H; discriminate H].
  rewrite process_bed_file_unfold.
  destruct (fix_reverse _) as [rows|e] eqn:E; [intros H; discriminate H|].
  apply fix_reverse_error in E. subst e. intros H. discriminate H.
Qed.

(** C1, amended: when contig filtering drops every record of a
    non-empty input, [process_bed_file] raises nothing and returns the
    empty result.  Only the input of zero records is rejected, by
    [generate_bed] with status 400 and "No genes provided", and that
    error stands for nothing else. *)
Theorem all_filtered_returns_empty_result
        (df : DataFrame) (extend_bp : Z) (remove_alt remove_fix : bool) :
  filter_contigs remove_alt remove_fix df = [] ->
  process_bed_file df extend_bp remove_alt remove_fix = Ok []
  /\ generate_bed [] extend_bp = Raise (HTTPException 400 "No genes provided")
  /\ (forall genes,
        generate_bed genes extend_bp
          = Raise (HTTPException 400 "No genes provided")
        <-> genes = []).
Proof.
  intros H. split; [now apply process_bed_file_all_filtered|].
  split; [reflexivity|]. intros genes. apply generate_bed_no_genes.
Qed.

Lemma all_filtered_returns_empty_result_example :
  process_bed_file
    [mkRecord (Some "chr19_GL000209v2_alt") (Some 5) (Some 9) (Some "KIR2DL1");
     mkRecord (Some "chr1_KN196472v1_fix") (Some 1) (Some 4) (Some "G2")]
    1000 true true = Ok []
  /\ generate_bed [] 1000 = Raise (HTTPException 400 "No genes provided").
Proof.
  destruct (all_filtered_returns_empty_result
              [mkRecord (Some "chr19_GL000209v2_alt") (Some 5) (Some 9)
                        (Some "KIR2DL1");
               mkRecord (Some "chr1_KN196472v1_fix") (Some 1) (Some 4)
                        (Some "G2")]
              1000 true true eq_refl) as (H1 & H2 & _).
  split; assumption.
Defined.

(** C1 as stated fails: a non-empty input whose records are all on
    excluded contigs is answered with the empty result, not with an
    error. *)
Lemma all_filtered_is_not_an_error :
  [mkRecord (Some "chr19_GL000209v2_alt") (Some 5) (Some 9) (Some "KIR2DL1")]
    <> []
  /\ filter_contigs true true
       [mkRecord (Some "chr19_GL000209v2_alt") (Some 5) (Some 9)
                 (Some "KIR2DL1")] = []
  /\ process_bed_file
       [mkRecord (Some "chr19_GL000209v2_alt") (Some 5) (Some 9)
                 (Some "KIR2DL1")]
       0 true true = Ok [].
Proof. split; [discriminate|]. split; reflexivity. Qed.

Lemma has_key_carried {A : Type} (key : JsonRecord -> Field A)
      (genes : list JsonRecord) :
  existsb (fun r => has_key (key r)) genes = true <-> carried key genes.
Proof.
  unfold carried. rewrite existsb_exists, Exists_exists.
  split; intros (r & Hr & H); exists r; (split; [exact Hr|]);
    destruct (key r); cbn [has_key] in *; congruence.
Qed.

Lemma has_key_not_carried {A : Type} (key : JsonRecord -> Field A)
      (genes : list JsonRecord) :
  ~ carried key genes -> existsb (fun r => has_key (key r)) genes = false.
Proof.
  intros H. destruct (existsb _ genes) eqn:E; [|reflexivity].
  destruct H. now apply has_key_carried.
Qed.

Lemma frame_of_records_missing_coordinate (genes : list JsonRecord) :
  Exists (fun r => ~ has_both_coordinates r) genes ->
  Exists (fun r => ~ has_coordinates r) (frame_of_records genes).
Proof.
  induction 1 as [r genes Hr|r genes _ IH]; cbn [frame_of_records map].
  - apply Exists_cons_hd. exact Hr.
  - apply Exists_cons_tl. exact IH.
Qed.

Lemma generate_bed_missing_coordinate
      (genes : list JsonRecord) (extend_bp : Z) :
  Exists (fun r => ~ has_both_coordinates r) genes ->
  exists e, generate_bed genes extend_bp = Raise e.
Proof.
  intros H. destruct genes as [|r genes]; [inversion H|].
  unfold generate_bed.
  destruct (has_chr _); cbn [negb]; [|eauto].
  destruct (has_start _); cbn [negb]; [|eauto].
  destruct (has_end _); cbn [negb]; [|eauto].
  destruct (has_gene _); cbn [negb]; [|eauto].
  rewrite process_bed_file_unfold.
  change (filter_contigs false false (frame_of_records (r :: genes)))
    with (frame_of_records (r :: genes)).
  rewrite fix_reverse_raises; [eauto|].
  now apply frame_of_records_missing_coordinate.
Qed.

(** C2, amended: a batch in which no record at all carries one of the
    four fields is rejected by [generate_bed] with status 400 and
    "Missing column: <field>", where the field named is the first of
    chr, start, end, gene that no record carries; and a batch in which
    some record has no value under start or under end makes the call
    raise.  In both cases there is no output. *)
Theorem generate_bed_rejects_missing_fields
        (genes : list JsonRecord) (extend_bp : Z) :
  genes <> [] ->
  (~ carried j_chr genes ->
   generate_bed genes extend_bp
   = Raise (HTTPException 400 "Missing column: chr"))
  /\ (carried j_chr genes -> ~ carried j_start genes ->
      generate_bed genes extend_bp
      = Raise (HTTPException 400 "Missing column: start"))
  /\ (carried j_chr genes -> carried j_start genes ->
      ~ carried j_end genes ->
      generate_bed genes extend_bp
      = Raise (HTTPException 400 "Missing column: end"))
  /\ (carried j_chr genes -> carried j_start genes ->
      carried j_end genes -> ~ carried j_gene genes ->
      generate_bed genes extend_bp
      = Raise (HTTPException 400 "Missing column: gene"))
  /\ (Exists (fun r => ~ has_both_coordinates r) genes ->
      exists e, generate_bed genes extend_bp = Raise e).
Proof.
  intros Hne. destruct genes as [|r genes]; [congruence|].
  split; [|split; [|split; [|split]]];
    [| | | |apply generate_bed_missing_coordinate];
    unfold generate_bed, has_chr, has_start, has_end, has_gene.
  - intros Hc. now rewrite (has_key_not_carried _ _ Hc).
  - intros Hc Hs. apply has_key_carried in Hc.
    now rewrite Hc, (has_key_not_carried _ _ Hs).
  - intros Hc Hs He. apply has_key_carried in Hc, Hs.
    now rewrite Hc, Hs, (has_key_not_carried _ _ He).
  - intros Hc Hs He Hg. apply has_key_carried in Hc, Hs, He.
    now rewrite Hc, Hs, He, (has_key_not_carried _ _ Hg).
Qed.

Lemma generate_bed_rejects_missing_fields_example :
  generate_bed [mkJson (Present "chr1") (Present 1) Absent Absent;
                mkJson (Present "chr2") (Present 3) Absent Absent] 1000
  = Raise (HTTPException 400 "Missing column: end").
Proof.
  apply (proj1 (proj2 (proj2 (generate_bed_rejects_missing_fields
                  [mkJson (Present "chr1") (Present 1) Absent Absent;
                   mkJson (Present "chr2") (Present 3) Absent Absent] 1000
                  ltac:(discriminate))))).
  - apply Exists_cons_hd. discriminate.
  - apply Exists_cons_hd. discriminate.
  - intros H. apply Exists_exists in H. destruct H as (r & Hr & H).
    destruct Hr as [<-|[<-|[]]]; now apply H.
Defined.

(** C2 as stated fails: a record without label, in a batch where another
    record has one, passes the column check and is left out by the
    grouping; the call succeeds with the rows of the other records. *)
Lemma generate_bed_skips_record_without_label :
  generate_bed [mkJson (Present "chr1") (Present 1) (Present 2) (Present "A");
                mkJson (Present "chr1") (Present 3) (Present 4) Absent] 0
  = Ok [mkRow (Some "chr1") 1 2 (Some "A")].
Proof. vm_compute. reflexivity. Qed.

(* ================================================================= *)
(** ** Standard chromosomes and the contig filter *)

Lemma is_standard_chromosome_In (c : string) :
  is_standard_chromosome c = true <-> In c STANDARD_CHROMOSOMES.
Proof.
  unfold is_standard_chromosome. rewrite existsb_exists. split.
  - intros (x & Hx & E). apply String.eqb_eq in E. now subst.
  - intros H. exists c. split; [exact H | apply String.eqb_refl].
Qed.

Lemma standard_chromosome_not_excluded (c : string) :
  is_standard_chromosome c = true ->
  contains "alt" c = false /\ contains "fix" c = false.
Proof.
  intros H. apply is_standard_chromosome_In in H.
  assert (Hall : forallb (fun c => negb (contains "alt" c)
                                   && negb (contains "fix" c))
                         STANDARD_CHROMOSOMES = true)
    by (vm_compute; reflexivity).
  rewrite forallb_forall in Hall. specialize (Hall c H).
  apply andb_true_iff in Hall. destruct Hall as [Ha Hf].
  now rewrite negb_true_iff in Ha, Hf.
Qed.

Lemma filter_all_true {A : Type} (f : A -> bool) (l : list A) :
  Forall (fun x => f x = true) l -> filter f l = l.
Proof.
  induction 1 as [|x l Hx _ IH]; cbn [filter]; [reflexivity|].
  now rewrite Hx, IH.
Qed.

(** X1: No standard chromosome name contains "alt" or "fix": on a frame
    whose records are all on standard chromosomes the contig filter
    drops nothing, whatever the flags, and [process_bed_file] gives the
    same result with the filters on as with the filters off, which is
    how [generate_bed] calls it. *)
Theorem standard_frame_is_never_filtered
        (df : DataFrame) (extend_bp : Z) (remove_alt remove_fix : bool) :
  Forall on_standard_chromosome df ->
  filter_contigs remove_alt remove_fix df = df
  /\ process_bed_file df extend_bp remove_alt remove_fix
     = process_bed_file df extend_bp false false.
Proof.
  intros H.
  assert (E : filter_contigs remove_alt remove_fix df = df).
  { rewrite filter_contigs_filter. apply filter_all_true.
    eapply Forall_impl; [|exact H].
    intros r (c & Hc & Hstd). unfold excluded, str_contains. rewrite Hc.
    destruct (standard_chromosome_not_excluded c Hstd) as [-> ->].
    now rewrite !andb_false_r. }
  split; [exact E|].
  rewrite !process_bed_file_unfold, E. reflexivity.
Qed.

Lemma standard_frame_is_never_filtered_example :
  filter_contigs true true
    [mkRecord (Some "chr17") (Some 43044295) (Some 43125364) (Some "BRCA1");
     mkRecord (Some "chrX") (Some 31119222) (Some 33339388) (Some "DMD")]
  = [mkRecord (Some "chr17") (Some 43044295) (Some 43125364) (Some "BRCA1");
     mkRecord (Some "chrX") (Some 31119222) (Some 33339388) (Some "DMD")].
Proof.
  apply (standard_frame_is_never_filtered
           [mkRecord (Some "chr17") (Some 43044295) (Some 43125364)
                     (Some "BRCA1");
            mkRecord (Some "chrX") (Some 31119222) (Some 33339388)
                     (Some "DMD")] 1000 true true).
  repeat constructor; eexists; (split; [reflexivity | vm_compute; reflexivity]).
Defined.

(** X2: A region name is classified as standard after normalisation exactly
    when it is one of the 24 standard names, with or without the "chr"
    prefix; and normalisation leaves every standard name as it is. *)
Theorem standard_after_normalization (c : string) :
  (is_standard_chromosome (normalize_chromosome c) = true <->
   In c STANDARD_CHROMOSOMES \/ In ("chr" ++ c) STANDARD_CHROMOSOMES)
  /\ (is_standard_chromosome c = true -> normalize_chromosome c = c).
Proof.
  assert (Hpre : forall x, In x STANDARD_CHROMOSOMES ->
                           startswith "chr" x = true).
  { intros x Hx.
    assert (Hall : forallb (startswith "chr") STANDARD_CHROMOSOMES = true)
      by (vm_compute; reflexivity).
    rewrite forallb_forall in Hall. now apply Hall. }
  split.
  - rewrite is_standard_chromosome_In. unfold normalize_chromosome.
    destruct (startswith "chr" c) eqn:E.
    + split; [now left|]. intros [H|H]; [exact H|].
      exfalso. revert E H. clear.
      assert (Hall : forallb (fun x => negb (startswith "chrchr" x))
                             STANDARD_CHROMOSOMES = true)
        by (vm_compute; reflexivity).
      rewrite forallb_forall in Hall. intros E H.
      specialize (Hall _ H). apply negb_true_iff in Hall.
      destruct (startswith_inv _ _ E) as [post ->].
      change ("chr" ++ "chr" ++ post) with ("chrchr" ++ post) in Hall.
      now rewrite startswith_app in Hall.
    + split; [now right|]. intros [H|H]; [|exact H].
      apply Hpre in H. congruence.
  - intros H. apply is_standard_chromosome_In, Hpre in H.
    unfold normalize_chromosome. now rewrite H.
Qed.

Lemma standard_after_normalization_example :
  normalize_chromosome "chr7" = "chr7".
Proof.
  apply (proj2 (standard_after_normalization "chr7")).
  vm_compute. reflexivity.
Defined.

(* ================================================================= *)
(** ** The record normaliser *)

Lemma normalize_ordered (symbol : string) (gene_data : GeneData) :
  p_start (normalize symbol gene_data) <= p_end (normalize symbol gene_data).
Proof.
  unfold normalize.
  destruct (get (gd_start gene_data) 0 >? get (gd_end gene_data) 0) eqn:E;
    cbn [p_start p_end]; rewrite Z.gtb_ltb in E;
    [apply Z.ltb_lt in E | apply Z.ltb_ge in E]; lia.
Qed.

Lemma normalize_chr_prefix (symbol : string) (gene_data : GeneData) :
  exists rest, p_chr (normalize symbol gene_data) = "chr" ++ rest.
Proof.
  unfold normalize. destruct (_ >? _); cbn [p_chr];
    apply startswith_inv, startswith_normalize.
Qed.

Lemma normalize_flag (symbol : string) (gene_data : GeneData) :
  p_is_standard (normalize symbol gene_data)
  = is_standard_chromosome (p_chr (normalize symbol gene_data)).
Proof. unfold normalize. now destruct (_ >? _). Qed.

(** X3: Every entry that [fetch_gene_positions] appends to [found] has
    [start <= end] and a contig that begins with "chr"; its coordinates
    are the smaller and the larger of the two looked up (0 for one the
    reply lacks), its strand is the one looked up (1 when the reply has
    none) whether or not the coordinates were swapped, and its
    [is_standard] flag is the classification of its own contig. *)
Theorem normalize_invariants (symbol : string) (gene_data : GeneData) :
  p_start (normalize symbol gene_data) <= p_end (normalize symbol gene_data)
  /\ (exists rest, p_chr (normalize symbol gene_data) = "chr" ++ rest)
  /\ p_start (normalize symbol gene_data)
     = Z.min (get (gd_start gene_data) 0) (get (gd_end gene_data) 0)
  /\ p_end (normalize symbol gene_data)
     = Z.max (get (gd_start gene_data) 0) (get (gd_end gene_data) 0)
  /\ p_strand (normalize symbol gene_data) = get (gd_strand gene_data) 1
  /\ p_is_standard (normalize symbol gene_data)
     = is_standard_chromosome (p_chr (normalize symbol gene_data)).
Proof.
  unfold normalize.
  destruct (get (gd_start gene_data) 0 >? get (gd_end gene_data) 0) eqn:E;
    cbn [p_start p_end p_chr p_strand p_is_standard];
    rewrite Z.gtb_ltb in E;
    [apply Z.ltb_lt in E | apply Z.ltb_ge in E];
    (split; [lia|]);
    (split; [apply startswith_inv, startswith_normalize|]);
    repeat split; lia.
Qed.

Lemma fix_reverse_positions (ps : list Position) :
  Forall (fun p => p_start p <= p_end p) ps ->
  fix_reverse (map record_of_position ps) = Ok (map row_of_position ps).
Proof.
  induction 1 as [|p ps Hp _ IH]; cbn [map fix_reverse]; [reflexivity|].
  rewrite IH. unfold fix_reverse_row, record_of_position.
  cbn [r_start r_end r_chr r_gene].
  destruct (p_start p >? p_end p) eqn:E.
  - rewrite Z.gtb_ltb, Z.ltb_lt in E. lia.
  - reflexivity.
Qed.

(** X4: The repair loop of [process_bed_file] has nothing to do on the
    entries that [fetch_gene_positions] produces: it raises for none of
    them and leaves the coordinates of each as the normaliser set them.
    So [process_bed_file] returns a result on every such frame. *)
Theorem fetched_positions_need_no_repair
        (entries : list (string * GeneData)) (extend_bp : Z)
        (remove_alt remove_fix : bool) :
  fix_reverse
    (map (fun e => record_of_position (normalize (fst e) (snd e))) entries)
  = Ok (map (fun e => row_of_position (normalize (fst e) (snd e))) entries)
  /\ exists out,
       process_bed_file
         (map (fun e => record_of_position (normalize (fst e) (snd e)))
              entries)
         extend_bp remove_alt remove_fix = Ok out.
Proof.
  split.
  - rewrite <- (map_map (fun e => normalize (fst e) (snd e))
                        record_of_position).
    rewrite <- (map_map (fun e => normalize (fst e) (snd e))
                        row_of_position).
    apply fix_reverse_positions. rewrite Forall_map, Forall_forall.
    intros e _. apply normalize_ordered.
  - apply process_bed_file_total. rewrite Forall_map, Forall_forall.
    intros e _. split; discriminate.
Qed.

(* ================================================================= *)
(** ** What the rows of the result are *)

Lemma Forall2_In_l {A B : Type} (R : A -> B -> Prop)
      (l1 : list A) (l2 : list B) (a : A) :
  Forall2 R l1 l2 -> In a l1 -> exists b, In b l2 /\ R a b.
Proof.
  induction 1 as [|x y l1 l2 Hxy _ IH]; intros Ha; [contradiction|].
  destruct Ha as [->|Ha].
  - exists y. split; [now left | exact Hxy].
  - destruct (IH Ha) as (b & Hb & Hab). exists b. split; [now right|exact Hab].
Qed.

Lemma Forall2_In_r {A B : Type} (R : A -> B -> Prop)
      (l1 : list A) (l2 : list B) (b : B) :
  Forall2 R l1 l2 -> In b l2 -> exists a, In a l1 /\ R a b.
Proof.
  induction 1 as [|x y l1 l2 Hxy _ IH]; intros Hb; [contradiction|].
  destruct Hb as [->|Hb].
  - exists x. split; [now left | exact Hxy].
  - destruct (IH Hb) as (a & Ha & Hab). exists a. split; [now right|exact Hab].
Qed.

Lemma process_bed_file_inv (df : DataFrame) (extend_bp : Z)
      (remove_alt remove_fix : bool) (out : list Row) :
  process_bed_file df extend_bp remove_alt remove_fix = Ok out ->
  exists rows,
    fix_reverse (filter_contigs remove_alt remove_fix df) = Ok rows
    /\ Permutation out (extend_regions extend_bp (groupby_agg rows)).
Proof.
  rewrite process_bed_file_unfold.
  destruct (fix_reverse _) as [rows|]; [|discriminate].
  intros H. inversion H; subst. exists rows. split; [reflexivity|].
  eapply perm_trans; [apply sort_values_chr_start_perm|].
  apply sort_values_start_perm.
Qed.

Lemma groupby_agg_gene (rows : list Row) :
  map gene (groupby_agg rows) = map Some (group_keys rows).
Proof. unfold groupby_agg. rewrite map_map. reflexivity. Qed.

Lemma extend_regions_gene (extend_bp : Z) (merged : list Row) :
  map gene (extend_regions extend_bp merged) = map gene merged.
Proof.
  unfold extend_regions. destruct (extend_bp >? 0); [|reflexivity].
  rewrite map_map. reflexivity.
Qed.

Lemma string_lt_sorted_NoDup (keys : list string) :
  StronglySorted string_lt keys -> NoDup keys.
Proof.
  induction 1 as [|k keys _ IH Hk]; constructor; [|exact IH].
  intros Hin. rewrite Forall_forall in Hk. specialize (Hk _ Hin).
  unfold string_lt in Hk. rewrite string_compare_refl in Hk. discriminate.
Qed.

Lemma process_bed_file_labels (df : DataFrame) (extend_bp : Z)
      (remove_alt remove_fix : bool) (out : list Row) :
  process_bed_file df extend_bp remove_alt remove_fix = Ok out ->
  exists rows,
    fix_reverse (filter_contigs remove_alt remove_fix df) = Ok rows
    /\ Permutation (map gene out) (map Some (group_keys rows)).
Proof.
  intros H. apply process_bed_file_inv in H.
  destruct H as (rows & Hrows & Hperm). exists rows. split; [exact Hrows|].
  rewrite <- groupby_agg_gene.
  rewrite <- (extend_regions_gene extend_bp (groupby_agg rows)).
  apply Permutation_map, Hperm.
Qed.

Lemma output_labels_distinct (df : DataFrame) (extend_bp : Z)
      (remove_alt remove_fix : bool) (out : list Row) :
  process_bed_file df extend_bp remove_alt remove_fix = Ok out ->
  NoDup (map gene out) /\ ~ In None (map gene out).
Proof.
  intros H. apply process_bed_file_labels in H.
  destruct H as (rows & _ & Hg). split.
  - apply (Permutation_NoDup (Permutation_sym Hg)).
    apply Finite.Injective_map_NoDup.
    + intros a b E. now inversion E.
    + apply string_lt_sorted_NoDup, group_keys_sorted.
  - intros Hin. apply (Permutation_in _ Hg) in Hin.
    apply in_map_iff in Hin. destruct Hin as (g & E & _). discriminate.
Qed.

(** X5: The result of [process_bed_file] has one row per label: the labels
    of its rows are pairwise distinct, none is missing, and they are
    exactly the labels of the records that the contig filter keeps. *)
Theorem output_has_one_row_per_label
        (df : DataFrame) (extend_bp : Z) (remove_alt remove_fix : bool)
        (out : list Row) :
  process_bed_file df extend_bp remove_alt remove_fix = Ok out ->
  NoDup (map gene out)
  /\ ~ In None (map gene out)
  /\ (forall g,
        In (Some g) (map gene out) <->
        exists r, In r (filter_contigs remove_alt remove_fix df)
                  /\ r_gene r = Some g).
Proof.
  intros H. destruct (output_labels_distinct _ _ _ _ _ H) as [Hnd Hno].
  apply process_bed_file_labels in H. destruct H as (rows & Hrows & Hg).
  split; [exact Hnd|]. split; [exact Hno|].
  - intros g. apply fix_reverse_Forall2 in Hrows. split.
    + intros Hin. apply (Permutation_in _ Hg) in Hin.
      apply in_map_iff in Hin. destruct Hin as (g' & E & Hin).
      inversion E; subst g'. apply group_keys_In, in_map_iff in Hin.
      destruct Hin as (r' & Hr' & Hin).
      destruct (Forall2_In_r _ _ _ _ Hrows Hin) as (r & Hr & _ & Hgene & _).
      exists r. split; [exact Hr | congruence].
    + intros (r & Hr & Hgene).
      destruct (Forall2_In_l _ _ _ _ Hrows Hr) as (r' & Hr' & _ & Hgene' & _).
      apply (Permutation_in _ (Permutation_sym Hg)).
      apply in_map, group_keys_In, in_map_iff.
      exists r'. split; [congruence | exact Hr'].
Qed.

Lemma output_has_one_row_per_label_example :
  NoDup (map gene
           [mkRow (Some "chr2") 60 100 (Some "G1");
            mkRow (Some "chr10") 0 19 (Some "G2")]).
Proof.
  apply (output_has_one_row_per_label
           [mkRecord (Some "chr2") (Some 90) (Some 70) (Some "G1");
            mkRecord (Some "chr2") (Some 75) (Some 80) (Some "G1");
            mkRecord (Some "chr10") (Some 5) (Some 9) (Some "G2")]
           10 true true).
  vm_compute. reflexivity.
Defined.

Lemma fix_reverse_ordered (df : DataFrame) (rows : list Row) :
  fix_reverse df = Ok rows -> Forall (fun r => start r <= end_ r) rows.
Proof.
  intros H. apply fix_reverse_Forall2 in H.
  induction H; constructor; [|assumption].
  eapply repaired_ordered; eassumption.
Qed.

Lemma merged_row_bounds (rows : list Row) (m : Row) :
  Forall (fun r => start r <= end_ r) rows ->
  In m (groupby_agg rows) ->
  start m <= end_ m /\ exists r, In r rows /\ start m = start r.
Proof.
  intros Hord Hm. unfold groupby_agg in Hm. apply in_map_iff in Hm.
  destruct Hm as (g & <- & Hg). apply group_keys_In in Hg.
  pose proof (group_members_nonempty rows g Hg) as Hne.
  set (members := filter (in_group g) rows) in *.
  assert (Hs : map start members <> [])
    by (destruct members; [congruence | discriminate]).
  assert (He : map end_ members <> [])
    by (destruct members; [congruence | discriminate]).
  destruct (agg_min_spec _ Hs) as [Hmin _].
  destruct (agg_max_spec _ He) as [_ Hmax].
  apply in_map_iff in Hmin. destruct Hmin as (r & Hr & Hin).
  rewrite Forall_map, Forall_forall in Hmax. specialize (Hmax r Hin).
  assert (Hrows : In r rows) by (apply filter_In in Hin; tauto).
  rewrite Forall_forall in Hord. specialize (Hord r Hrows).
  cbn [merge_group start end_]. split; [lia|].
  exists r. split; [exact Hrows | congruence].
Qed.

Lemma merged_row_within (lo hi : Z) (rows : list Row) (m : Row) :
  Forall (fun r => lo <= start r <= end_ r /\ end_ r <= hi) rows ->
  In m (groupby_agg rows) ->
  lo <= start m <= end_ m /\ end_ m <= hi.
Proof.
  intros Hall Hm. unfold groupby_agg in Hm. apply in_map_iff in Hm.
  destruct Hm as (g & <- & Hg). apply group_keys_In in Hg.
  pose proof (group_members_nonempty rows g Hg) as Hne.
  set (members := filter (in_group g) rows) in *.
  assert (Hs : map start members <> [])
    by (destruct members; [congruence | discriminate]).
  assert (He : map end_ members <> [])
    by (destruct members; [congruence | discriminate]).
  destruct (agg_min_spec _ Hs) as [Hmin Hmin'].
  destruct (agg_max_spec _ He) as [Hmax Hmax'].
  apply in_map_iff in Hmin, Hmax.
  destruct Hmin as (r1 & Hr1 & Hin1). destruct Hmax as (r2 & Hr2 & Hin2).
  rewrite Forall_map, Forall_forall in Hmin', Hmax'.
  specialize (Hmin' r2 Hin2). specialize (Hmax' r1 Hin1).
  rewrite Forall_forall in Hall.
  assert (H1 : In r1 rows) by (apply filter_In in Hin1; tauto).
  assert (H2 : In r2 rows) by (apply filter_In in Hin2; tauto).
  pose proof (Hall r1 H1). pose proof (Hall r2 H2).
  cbn [merge_group start end_]. lia.
Qed.

Lemma repaired_rows_within (lo hi : Z) (df : DataFrame) (rows : list Row) :
  Forall (coordinates_within lo hi) df ->
  Forall2 repaired df rows ->
  Forall (fun r => lo <= start r <= end_ r /\ end_ r <= hi) rows.
Proof.
  intros Hdf H2. induction H2 as [|r r' df rows Hr _ IH]; constructor.
  - inversion Hdf as [|? ? Hc _]; subst.
    destruct Hr as (_ & _ & s & e & Hs & He & -> & ->).
    specialize (Hc s e Hs He). lia.
  - apply IH. now inversion Hdf.
Qed.

(** X6: The intervals of the result are well formed under the conditions
    the code needs for it.  Without extension every row has
    [start <= end]; with [extend_bp > 0], [extend_bp] and the
    coordinates 64-bit numbers, no row has a negative start; and when
    every coordinate lies between 0 and 2^63 - 1 - [extend_bp], so that
    the extension stays inside the 64-bit range of the columns, every
    row has [0 <= start <= end].  Outside these conditions a row can
    have its start after its end: (-100,-50) extended by 10 becomes
    (0,-40), and (1, 2^63 - 1) extended by 1 becomes (0, -2^63). *)
Theorem output_intervals_well_formed
        (df : DataFrame) (extend_bp : Z) (remove_alt remove_fix : bool)
        (out : list Row) :
  process_bed_file df extend_bp remove_alt remove_fix = Ok out ->
  (extend_bp <= 0 -> Forall (fun m => start m <= end_ m) out)
  /\ (0 < extend_bp <= int64_max ->
      Forall (coordinates_within int64_min int64_max) df ->
      Forall (fun m => 0 <= start m) out)
  /\ (extend_bp <= int64_max ->
      Forall (coordinates_within 0 (int64_max - Z.max 0 extend_bp)) df ->
      Forall (fun m => 0 <= start m <= end_ m) out)
  /\ process_bed_file
       [mkRecord (Some "chr1") (Some (-100)) (Some (-50)) (Some "A")]
       10 remove_alt remove_fix
     = Ok [mkRow (Some "chr1") 0 (-40) (Some "A")]
  /\ process_bed_file
       [mkRecord (Some "chr1") (Some 1) (Some 9223372036854775807)
                 (Some "A")]
       1 remove_alt remove_fix
     = Ok [mkRow (Some "chr1") 0 (-9223372036854775808) (Some "A")].
Proof.
  intros H. apply process_bed_file_inv in H.
  destruct H as (rows & Hrows & Hperm).
  pose proof (fix_reverse_ordered _ _ Hrows) as Hord.
  assert (Hin : forall m, In m out ->
                  In m (extend_regions extend_bp (groupby_agg rows)))
    by (intros m; apply Permutation_in, Hperm).
  split; [|split; [|split; [|split]]].
  - intros Hext. rewrite Forall_forall. intros m Hm. apply Hin in Hm.
    rewrite (extend_regions_off _ _ Hext) in Hm.
    now apply (merged_row_bounds rows m Hord).
  - intros [Hext _] _. rewrite Forall_forall. intros m Hm. apply Hin in Hm.
    rewrite (extend_regions_map _ _ Hext) in Hm. apply in_map_iff in Hm.
    destruct Hm as (m0 & <- & _). cbn [extend start]. lia.
  - intros Hmax Hpos. rewrite Forall_forall. intros m Hm. apply Hin in Hm.
    assert (Hm0 : forall m0, In m0 (groupby_agg rows) ->
                    0 <= start m0 <= end_ m0
                    /\ end_ m0 <= int64_max - Z.max 0 extend_bp).
    { intros m0 Hm0. apply (merged_row_within _ _ rows); [|exact Hm0].
      apply (repaired_rows_within _ _ (filter_contigs remove_alt remove_fix df));
        [|now apply fix_reverse_Forall2].
      now apply filter_contigs_Forall. }
    destruct (Z.ltb_spec 0 extend_bp) as [Hext|Hext].
    + rewrite (extend_regions_map _ _ Hext) in Hm. apply in_map_iff in Hm.
      destruct Hm as (m0 & <- & Hm). specialize (Hm0 m0 Hm).
      rewrite extend_in_range; [cbn [start end_]; lia|].
      unfold extends_in_range, in_int64, int64_min, int64_max in *. lia.
    + rewrite (extend_regions_off _ _ Hext) in Hm.
      specialize (Hm0 m Hm). lia.
  - destruct remove_alt, remove_fix; vm_compute; reflexivity.
  - destruct remove_alt, remove_fix; vm_compute; reflexivity.
Qed.

Lemma output_intervals_well_formed_example :
  Forall (fun m => 0 <= start m <= end_ m)
         [mkRow (Some "chr2") 60 100 (Some "G1");
          mkRow (Some "chr10") 0 19 (Some "G2")].
Proof.
  apply (output_intervals_well_formed
           [mkRecord (Some "chr2") (Some 90) (Some 70) (Some "G1");
            mkRecord (Some "chr10") (Some 5) (Some 9) (Some "G2")]
           10 true true).
  - vm_compute. reflexivity.
  - unfold int64_max. lia.
  - apply Forall_cons; [|apply Forall_cons; [|apply Forall_nil]];
      intros s e Hs He; inversion Hs; inversion He;
      unfold int64_max; lia.
Defined.

Lemma merged_row_of_label (rows : list Row) (g : string) (r : Row) :
  In r rows -> gene r = Some g ->
  exists m,
    In m (groupby_agg rows) /\ gene m = Some g
    /\ start m <= start r /\ end_ r <= end_ m.
Proof.
  intros Hr Hg.
  assert (Hlab : In (Some g) (map gene rows))
    by (apply in_map_iff; now exists r).
  assert (Hmember : In r (filter (in_group g) rows))
    by (apply filter_In; split; [exact Hr | now apply in_group_spec]).
  exists (merge_group g (filter (in_group g) rows)).
  split; [|split; [reflexivity|]].
  - assert (Hx : In (merge_group g (filter (in_group g) rows))
                    (filter (in_group g) (groupby_agg rows)))
      by (rewrite (groupby_agg_group rows g Hlab); now left).
    apply filter_In in Hx. tauto.
  - set (members := filter (in_group g) rows) in *.
    assert (Hs : map start members <> [])
      by (destruct members; [contradiction | discriminate]).
    assert (He : map end_ members <> [])
      by (destruct members; [contradiction | discriminate]).
    destruct (agg_min_spec _ Hs) as [_ Hmin].
    destruct (agg_max_spec _ He) as [_ Hmax].
    rewrite Forall_map, Forall_forall in Hmin, Hmax.
    cbn [merge_group start end_]. split; [now apply Hmin | now apply Hmax].
Qed.

(** X7: Every record that the contig filter keeps and that has a label is
    covered by the row of its label: the row starts at or before the
    record's smaller coordinate and ends at or after its larger one.
    With [extend_bp > 0] this needs [extend_bp] to be a 64-bit number
    and every coordinate to lie between 0 and 2^63 - 1 - [extend_bp]
    (the start of the row is clamped at zero, and the columns are 64
    bits wide). *)
Theorem output_covers_every_record
        (df : DataFrame) (extend_bp : Z) (remove_alt remove_fix : bool)
        (out : list Row) (r : Record_) (g : string) (s e : Z) :
  process_bed_file df extend_bp remove_alt remove_fix = Ok out ->
  In r (filter_contigs remove_alt remove_fix df) ->
  r_gene r = Some g -> r_start r = Some s -> r_end r = Some e ->
  (0 < extend_bp ->
   extend_bp <= int64_max
   /\ Forall (coordinates_within 0 (int64_max - extend_bp)) df) ->
  exists m,
    In m out /\ gene m = Some g
    /\ start m <= Z.min s e /\ Z.max s e <= end_ m.
Proof.
  intros H Hr Hg Hs He Hpos. apply process_bed_file_inv in H.
  destruct H as (rows & Hrows & Hperm).
  apply fix_reverse_Forall2 in Hrows.
  destruct (Forall2_In_l _ _ _ _ Hrows Hr)
    as (r' & Hr' & _ & Hgene & s' & e' & Hs' & He' & Hmin & Hmax).
  assert (s' = s) by congruence. assert (e' = e) by congruence. subst s' e'.
  assert (Hgr : gene r' = Some g) by congruence.
  destruct (merged_row_of_label rows g r' Hr' Hgr)
    as (m0 & Hin0 & Hm0g & Hlo & Hhi).
  destruct (Z.ltb_spec 0 extend_bp) as [Hext|Hext].
  - exists (extend extend_bp m0). split; [|split].
    + apply (Permutation_in _ (Permutation_sym Hperm)).
      rewrite (extend_regions_map _ _ Hext). now apply in_map.
    + exact Hm0g.
    + destruct (Hpos Hext) as [Hbound Hpos'].
      assert (Hwithin : Forall (fun x => 0 <= start x <= end_ x
                                         /\ end_ x <= int64_max - extend_bp)
                               rows).
      { apply (repaired_rows_within _ _
                 (filter_contigs remove_alt remove_fix df));
          [now apply filter_contigs_Forall | exact Hrows]. }
      clear Hpos.
      pose proof (merged_row_within _ _ _ _ Hwithin Hin0) as Hm0.
      rewrite Forall_forall in Hwithin. pose proof (Hwithin r' Hr') as Hr0.
      rewrite extend_in_range; [cbn [start end_]; lia|].
      unfold extends_in_range, in_int64, int64_min, int64_max in *. lia.
  - exists m0. split; [|split].
    + apply (Permutation_in _ (Permutation_sym Hperm)).
      now rewrite (extend_regions_off _ _ Hext).
    + exact Hm0g.
    + lia.
Qed.

Lemma output_covers_every_record_example :
  exists m,
    In m [mkRow (Some "chr2") 60 100 (Some "G1");
          mkRow (Some "chr10") 0 19 (Some "G2")]
    /\ gene m = Some "G1"
    /\ start m <= Z.min 90 70 /\ Z.max 90 70 <= end_ m.
Proof.
  apply (output_covers_every_record
           [mkRecord (Some "chr2") (Some 90) (Some 70) (Some "G1");
            mkRecord (Some "chr10") (Some 5) (Some 9) (Some "G2")]
           10 true true _
           (mkRecord (Some "chr2") (Some 90) (Some 70) (Some "G1"))).
  - vm_compute. reflexivity.
  - vm_compute. now left.
  - reflexivity.
  - reflexivity.
  - reflexivity.
  - intros _. split; [unfold int64_max; lia|].
    apply Forall_cons; [|apply Forall_cons; [|apply Forall_nil]];
      intros s e Hs He; inversion Hs; inversion He;
      unfold int64_max; lia.
Defined.

(* ================================================================= *)
(** ** When [generate_bed] succeeds *)

Lemma fix_reverse_ok_coordinates (df : DataFrame) (rows : list Row) :
  fix_reverse df = Ok rows -> Forall has_coordinates df.
Proof.
  intros H. apply fix_reverse_Forall2 in H.
  induction H as [|r r' df rows Hr _ IH]; constructor; [|exact IH].
  destruct Hr as (_ & _ & s & e & Hs & He & _).
  split; congruence.
Qed.

Lemma frame_of_records_coordinates (genes : list JsonRecord) :
  Forall has_coordinates (frame_of_records genes)
  <-> Forall has_both_coordinates genes.
Proof. unfold frame_of_records. rewrite Forall_map. reflexivity. Qed.

Lemma has_both_coordinates_keys (r : JsonRecord) :
  has_both_coordinates r ->
  has_key (j_start r) = true /\ has_key (j_end r) = true.
Proof.
  intros [Hs He]. destruct (j_start r), (j_end r); cbn in *;
    try congruence; now split.
Qed.

Lemma generate_bed_succeeds (genes : list JsonRecord) (extend_bp : Z) :
  genes <> [] ->
  carried j_chr genes ->
  carried j_gene genes ->
  Forall has_both_coordinates genes ->
  exists out, generate_bed genes extend_bp = Ok out.
Proof.
  intros Hne Hc Hg Hall.
  destruct genes as [|r genes]; [congruence|].
  unfold generate_bed, has_chr, has_start, has_end, has_gene.
  apply has_key_carried in Hc, Hg. rewrite Hc, Hg.
  assert (Hr : has_both_coordinates r) by now inversion Hall.
  destruct (has_both_coordinates_keys r Hr) as [Hs He].
  cbn [existsb]. rewrite Hs, He. cbn [orb negb].
  apply process_bed_file_total. now apply frame_of_records_coordinates.
Qed.

(** X8: [generate_bed] produces a file exactly when the batch is not empty,
    some record carries the key chr, some record carries the key gene,
    and every record has a value under start and under end.  The keys
    may be carried with [null]: a batch whose records all have [null]
    for gene is accepted and gives a file without rows. *)
Theorem generate_bed_succeeds_iff (genes : list JsonRecord) (extend_bp : Z) :
  ((exists out, generate_bed genes extend_bp = Ok out)
   <-> genes <> []
       /\ carried j_chr genes
       /\ carried j_gene genes
       /\ Forall has_both_coordinates genes)
  /\ generate_bed [mkJson (Present "chr1") (Present 1) (Present 2) Null]
                  extend_bp
     = Ok [].
Proof.
  split; [split|].
  - intros [out H]. destruct genes as [|r genes]; [discriminate H|].
    unfold generate_bed in H.
    destruct (has_chr (r :: genes)) eqn:Ec; cbn [negb] in H;
      [|discriminate H].
    destruct (has_start (r :: genes)); cbn [negb] in H; [|discriminate H].
    destruct (has_end (r :: genes)); cbn [negb] in H; [|discriminate H].
    destruct (has_gene (r :: genes)) eqn:Eg; cbn [negb] in H;
      [|discriminate H].
    split; [discriminate|].
    split; [now apply has_key_carried|].
    split; [now apply has_key_carried|].
    rewrite process_bed_file_unfold in H.
    change (filter_contigs false false (frame_of_records (r :: genes)))
      with (frame_of_records (r :: genes)) in H.
    destruct (fix_reverse (frame_of_records (r :: genes))) as [rows|] eqn:E;
      [|discriminate H].
    eapply frame_of_records_coordinates, fix_reverse_ok_coordinates, E.
  - intros (Hne & Hc & Hg & Hall). now apply generate_bed_succeeds.
  - unfold generate_bed. cbn [has_chr has_start has_end has_gene existsb
                               has_key j_chr j_start j_end j_gene orb negb].
    rewrite process_bed_file_unfold. cbn. unfold extend_regions.
    now destruct (extend_bp >? 0).
Qed.

(* ================================================================= *)
(** ** The natural order of contigs *)






(** X10: The natural order is a total preorder on contigs: comparing the
    other way round gives the opposite answer, the order is transitive,
    and two contigs compare equal exactly when their keys are the same. *)
Theorem natural_order_is_total_preorder (c1 c2 c3 : option string) :
  natural_compare c2 c1 = CompOpp (natural_compare c1 c2)
  /\ (natural_compare c1 c2 = Eq <-> natsort_key c1 = natsort_key c2)
  /\ (natural_compare c1 c2 <> Gt -> natural_compare c2 c3 <> Gt ->
      natural_compare c1 c3 <> Gt)
  /\ (natural_compare c1 c2 = Lt -> natural_compare c2 c3 <> Gt ->
      natural_compare c1 c3 = Lt).
Proof.
  split; [apply natural_compare_antisym|].
  split; [apply natural_compare_eq|]. split.
  - intros H12 H23. now apply (natural_compare_trans c1 c2 c3).
  - intros H12 H23.
    destruct (natural_compare_trans c1 c2 c3) as [Hle Heq];
      [congruence | exact H23 |].
    destruct (natural_compare c1 c3) eqn:E; [|reflexivity|congruence].
    destruct (Heq eq_refl) as [H _]. congruence.
Qed.

(* ================================================================= *)
(** ** Frames of standard chromosomes *)

Lemma standard_order_table (x y : string) :
  In x STANDARD_CHROMOSOMES -> In y STANDARD_CHROMOSOMES ->
  match natural_compare (Some x) (Some y) with
  | Lt => (index_of x STANDARD_CHROMOSOMES
           < index_of y STANDARD_CHROMOSOMES)%nat
  | Eq => x = y
  | Gt => True
  end.
Proof.
  intros Hx Hy.
  assert (Hall :
    forallb (fun x =>
      forallb (fun y =>
        match natural_compare (Some x) (Some y) with
        | Lt => (index_of x STANDARD_CHROMOSOMES
                 <? index_of y STANDARD_CHROMOSOMES)%nat
        | Eq => String.eqb x y
        | Gt => true
        end) STANDARD_CHROMOSOMES) STANDARD_CHROMOSOMES = true)
    by (vm_compute; reflexivity).
  rewrite forallb_forall in Hall. specialize (Hall x Hx).
  rewrite forallb_forall in Hall. specialize (Hall y Hy).
  destruct (natural_compare (Some x) (Some y)).
  - now apply String.eqb_eq.
  - now apply Nat.ltb_lt.
  - exact I.
Qed.

Lemma agg_first_all_present (col : list (option string))
      (P : string -> Prop) :
  col <> [] ->
  Forall (fun cell => exists c, cell = Some c /\ P c) col ->
  exists c, agg_first col = Some c /\ P c.
Proof.
  intros Hne H. destruct H as [|cell col (c & -> & Hc) _]; [congruence|].
  exists c. split; [reflexivity | exact Hc].
Qed.

Lemma extend_regions_In (extend_bp : Z) (merged : list Row) (m : Row) :
  In m (extend_regions extend_bp merged) ->
  exists m0, In m0 merged /\ chr m = chr m0 /\ gene m = gene m0.
Proof.
  unfold extend_regions. destruct (extend_bp >? 0).
  - intros H. apply in_map_iff in H. destruct H as (m0 & <- & H).
    now exists m0.
  - intros H. now exists m.
Qed.

Lemma output_on_standard_chromosomes
      (df : DataFrame) (extend_bp : Z) (remove_alt remove_fix : bool)
      (out : list Row) :
  process_bed_file df extend_bp remove_alt remove_fix = Ok out ->
  Forall on_standard_chromosome df ->
  Forall (fun m => exists c, chr m = Some c /\ In c STANDARD_CHROMOSOMES) out.
Proof.
  intros H Hstd. apply process_bed_file_inv in H.
  destruct H as (rows & Hrows & Hperm). apply fix_reverse_Forall2 in Hrows.
  rewrite Forall_forall. intros m Hm.
  apply (Permutation_in _ Hperm), extend_regions_In in Hm.
  destruct Hm as (m0 & Hm0 & -> & _).
  unfold groupby_agg in Hm0. apply in_map_iff in Hm0.
  destruct Hm0 as (g & <- & Hg). apply group_keys_In in Hg.
  cbn [merge_group chr].
  apply agg_first_all_present.
  - pose proof (group_members_nonempty rows g Hg) as Hne.
    destruct (filter (in_group g) rows); [congruence | discriminate].
  - rewrite Forall_map, Forall_forall. intros r' Hr'.
    apply filter_In in Hr'. destruct Hr' as [Hr' _].
    destruct (Forall2_In_r _ _ _ _ Hrows Hr') as (r & Hr & Hchr & _).
    rewrite filter_contigs_filter in Hr. apply filter_In in Hr.
    rewrite Forall_forall in Hstd.
    destruct (Hstd r (proj1 Hr)) as (c & Hc & Hs).
    exists c. split; [congruence | now apply is_standard_chromosome_In].
Qed.

Lemma standard_rows_sorted (out : list Row) :
  Forall (fun m => exists c, chr m = Some c /\ In c STANDARD_CHROMOSOMES)
         out ->
  StronglySorted bed_le out ->
  StronglySorted
    (fun a b =>
       (karyotype_rank (chr a) < karyotype_rank (chr b))%nat
       \/ (chr a = chr b /\ start a <= start b))
    out.
Proof.
  intros Hout Hsorted. rewrite <- (map_id out).
  apply StronglySorted_map_In with (R := bed_le); [|exact Hsorted].
  rewrite Forall_forall in Hout. intros a b Ha Hb Hle.
  destruct (Hout a Ha) as (x & Hx & Hxs).
  destruct (Hout b Hb) as (y & Hy & Hys).
  unfold bed_le in Hle. rewrite Hx, Hy in *.
  pose proof (standard_order_table x y Hxs Hys) as Htab.
  destruct (natural_compare (Some x) (Some y)).
  - right. subst. now split.
  - left. exact Htab.
  - contradiction.
Qed.

(** X11: When all records are on standard chromosomes, so are all rows of the
    result, and they come in the conventional order chr1, ..., chr22,
    chrX, chrY, the rows of one chromosome by ascending start. *)
Theorem standard_frame_in_karyotype_order
        (df : DataFrame) (extend_bp : Z) (remove_alt remove_fix : bool)
        (out : list Row) :
  process_bed_file df extend_bp remove_alt remove_fix = Ok out ->
  Forall on_standard_chromosome df ->
  Forall (fun m => exists c, chr m = Some c /\ In c STANDARD_CHROMOSOMES) out
  /\ StronglySorted
       (fun a b =>
          (karyotype_rank (chr a) < karyotype_rank (chr b))%nat
          \/ (chr a = chr b /\ start a <= start b))
       out.
Proof.
  intros H Hstd.
  pose proof (output_on_standard_chromosomes _ _ _ _ _ H Hstd) as Hout.
  split; [exact Hout|].
  apply standard_rows_sorted; [exact Hout|].
  eapply process_bed_file_sorted, H.
Qed.

Lemma standard_frame_in_karyotype_order_example :
  Forall (fun m => exists c, chr m = Some c /\ In c STANDARD_CHROMOSOMES)
         [mkRow (Some "chr2") 70 90 (Some "G1");
          mkRow (Some "chr10") 5 9 (Some "G2");
          mkRow (Some "chrX") 1 4 (Some "G3")]
  /\ StronglySorted
       (fun a b =>
          (karyotype_rank (chr a) < karyotype_rank (chr b))%nat
          \/ (chr a = chr b /\ start a <= start b))
       [mkRow (Some "chr2") 70 90 (Some "G1");
        mkRow (Some "chr10") 5 9 (Some "G2");
        mkRow (Some "chrX") 1 4 (Some "G3")].
Proof.
  apply (standard_frame_in_karyotype_order
           [mkRecord (Some "chrX") (Some 1) (Some 4) (Some "G3");
            mkRecord (Some "chr10") (Some 5) (Some 9) (Some "G2");
            mkRecord (Some "chr2") (Some 90) (Some 70) (Some "G1")]
           0 false false).
  - vm_compute. reflexivity.
  - repeat apply Forall_cons; try apply Forall_nil;
      eexists; (split; [reflexivity | vm_compute; reflexivity]).
Defined.

(* ================================================================= *)
(** ** Running [process_bed_file] on its own result *)

Lemma agg_first_In (col : list (option string)) (c : string) :
  agg_first col = Some c -> In (Some c) col.
Proof.
  induction col as [|[x|] col IH]; cbn [agg_first]; intros H.
  - discriminate.
  - inversion H. now left.
  - right. now apply IH.
Qed.

Lemma insert_key_perm (g : string) (keys : list string) :
  ~ In g keys -> Permutation (insert_key g keys) (g :: keys).
Proof.
  induction keys as [|k keys IH]; intros Hg; cbn [insert_key].
  - apply Permutation_refl.
  - destruct (String.compare g k) eqn:E.
    + apply String.compare_eq_iff in E. subst. destruct Hg. now left.
    + apply Permutation_refl.
    + eapply perm_trans; [apply perm_skip, IH | apply perm_swap].
      intros H. apply Hg. now right.
Qed.

Lemma group_keys_perm (rows : list Row) :
  NoDup (map gene rows) -> ~ In None (map gene rows) ->
  Permutation (group_keys rows) (map label_of rows).
Proof.
  induction rows as [|r rows IH]; cbn [map group_keys]; intros Hnd Hno.
  - apply perm_nil.
  - inversion Hnd as [|? ? Hr Hnd']; subst.
    unfold label_of at 1. destruct (gene r) as [g|] eqn:E.
    + eapply perm_trans.
      * apply insert_key_perm. intros H. apply Hr. now apply group_keys_In.
      * apply perm_skip, IH; [exact Hnd'|]. intros H. apply Hno. now right.
    + destruct Hno. now left.
Qed.

Lemma filter_in_group_single (rows : list Row) (r : Row) :
  NoDup (map gene rows) -> In r rows -> gene r <> None ->
  filter (in_group (label_of r)) rows = [r].
Proof.
  intros Hnd Hr Hg. unfold label_of.
  destruct (gene r) as [g|] eqn:E; [clear Hg | congruence].
  induction rows as [|x rows IH]; [contradiction|].
  cbn [map] in Hnd. inversion Hnd as [|? ? Hx Hnd']; subst.
  cbn [filter]. destruct (in_group g x) eqn:Ex.
  - apply in_group_spec in Ex.
    assert (x = r) as ->.
    { destruct Hr as [->|Hr]; [reflexivity|]. destruct Hx.
      rewrite Ex, <- E. now apply in_map. }
    f_equal. clear IH Hr Hnd Hnd'.
    induction rows as [|y rows IH]; [reflexivity|]. cbn [filter].
    destruct (in_group g y) eqn:Ey.
    + apply in_group_spec in Ey. destruct Hx. left. congruence.
    + apply IH. intros H. apply Hx. now right.
  - destruct Hr as [->|Hr].
    + apply in_group_spec in E. congruence.
    + now apply IH.
Qed.

Lemma merge_group_single (r : Row) :
  gene r <> None -> merge_group (label_of r) [r] = r.
Proof.
  intros Hg. unfold merge_group, label_of. cbn [map agg_min agg_max fold_left].
  destruct r as [c s e [g|]]; cbn [gene chr start end_ agg_first] in *;
    [|congruence].
  now destruct c.
Qed.

(** On rows with pairwise distinct labels the merge step only rearranges
    the rows. *)
Lemma groupby_agg_distinct_labels (rows : list Row) :
  NoDup (map gene rows) -> ~ In None (map gene rows) ->
  Permutation (groupby_agg rows) rows.
Proof.
  intros Hnd Hno. unfold groupby_agg.
  eapply perm_trans; [apply Permutation_map, group_keys_perm; assumption|].
  rewrite map_map.
  rewrite (map_ext_in _ (fun r => r) rows);
    [rewrite map_id; apply Permutation_refl|].
  intros r Hr.
  assert (Hg : gene r <> None)
    by (intros E; apply Hno; rewrite <- E; now apply in_map).
  rewrite (filter_in_group_single rows r Hnd Hr Hg).
  now apply merge_group_single.
Qed.

(** A list has one sorted arrangement at most, when no two different
    elements rank equal. *)
Lemma sorted_perm_unique {A : Type} (R : A -> A -> Prop) (l1 l2 : list A) :
  (forall a b, In a l1 -> In b l1 -> R a b -> R b a -> a = b) ->
  StronglySorted R l1 -> StronglySorted R l2 -> Permutation l1 l2 ->
  l1 = l2.
Proof.
  intros Hanti H1. revert l2.
  induction H1 as [|a l1 H1 IH Ha]; intros l2 H2 Hp.
  - now apply Permutation_nil in Hp.
  - destruct l2 as [|b l2];
      [apply Permutation_sym, Permutation_nil in Hp; discriminate|].
    inversion H2 as [|? ? H2' Hb]; subst.
    rewrite Forall_forall in Ha, Hb.
    assert (a = b) as ->.
    { assert (Hain : In a (b :: l2))
        by (apply (Permutation_in _ Hp); now left).
      assert (Hbin : In b (a :: l1))
        by (apply (Permutation_in _ (Permutation_sym Hp)); now left).
      destruct Hain as [->|Hain]; [reflexivity|].
      destruct Hbin as [->|Hbin]; [reflexivity|].
      apply Hanti; [now left | now right | now apply Ha | now apply Hb]. }
    f_equal. apply IH; [|exact H2'|eapply Permutation_cons_inv, Hp].
    intros x y Hx Hy. apply Hanti; now right.
Qed.

Lemma output_not_excluded
      (df : DataFrame) (extend_bp : Z) (remove_alt remove_fix : bool)
      (out : list Row) :
  process_bed_file df extend_bp remove_alt remove_fix = Ok out ->
  Forall (fun m => excluded remove_alt remove_fix (record_of_row m) = false)
         out.
Proof.
  intros H. apply process_bed_file_inv in H.
  destruct H as (rows & Hrows & Hperm). apply fix_reverse_Forall2 in Hrows.
  rewrite Forall_forall. intros m Hm.
  apply (Permutation_in _ Hperm), extend_regions_In in Hm.
  destruct Hm as (m0 & Hm0 & Hchr & _).
  unfold excluded, record_of_row. cbn [r_chr]. rewrite Hchr.
  unfold groupby_agg in Hm0. apply in_map_iff in Hm0.
  destruct Hm0 as (g & <- & _). cbn [merge_group chr].
  destruct (agg_first _) as [c|] eqn:E;
    [|cbn [str_contains]; now rewrite !andb_false_r].
  apply agg_first_In, in_map_iff in E. destruct E as (r' & Hc & Hr').
  apply filter_In in Hr'. destruct Hr' as [Hr' _].
  destruct (Forall2_In_r _ _ _ _ Hrows Hr') as (r & Hr & Hchr' & _).
  rewrite filter_contigs_filter in Hr. apply filter_In in Hr.
  destruct Hr as [_ Hr]. apply negb_true_iff in Hr.
  unfold excluded in Hr. now rewrite <- Hchr', Hc in Hr.
Qed.

(** X12: Fed its own result, without extension and with the same flags,
    [process_bed_file] returns the same rows again, provided every row
    of that result has [start <= end]: nothing is filtered, repaired or
    merged a second time.  The rows come back in the same order whenever
    no two different rows agree in both their contig, up to natural
    order, and their start. *)
Theorem process_bed_file_on_own_output
        (df : DataFrame) (extend_bp : Z) (remove_alt remove_fix : bool)
        (out : list Row) :
  process_bed_file df extend_bp remove_alt remove_fix = Ok out ->
  Forall (fun m => start m <= end_ m) out ->
  exists out',
    process_bed_file (map record_of_row out) 0 remove_alt remove_fix
      = Ok out'
    /\ Permutation out' out
    /\ ((forall a b, In a out -> In b out ->
                     bed_le a b -> bed_le b a -> a = b) ->
        out' = out).
Proof.
  intros H Hord.
  destruct (output_labels_distinct _ _ _ _ _ H) as (Hnd & Hno).
  pose proof (output_not_excluded _ _ _ _ _ H) as Hex.
  pose proof (process_bed_file_sorted _ _ _ _ _ H) as Hsorted.
  assert (Hf : filter_contigs remove_alt remove_fix (map record_of_row out)
               = map record_of_row out).
  { rewrite filter_contigs_filter. apply filter_all_true.
    rewrite Forall_map. eapply Forall_impl; [|exact Hex].
    intros m Hm. cbv beta. now rewrite Hm. }
  assert (Hrun : process_bed_file (map record_of_row out) 0
                                  remove_alt remove_fix
                 = Ok (sort_values_chr_start
                         (sort_values_start (groupby_agg out)))).
  { rewrite process_bed_file_unfold, Hf, (fix_reverse_fixed out Hord).
    now rewrite (extend_regions_off 0) by lia. }
  assert (Hperm : Permutation
                    (sort_values_chr_start
                       (sort_values_start (groupby_agg out))) out).
  { eapply perm_trans; [apply sort_values_chr_start_perm|].
    eapply perm_trans; [apply sort_values_start_perm|].
    now apply groupby_agg_distinct_labels. }
  eexists. split; [exact Hrun|]. split; [exact Hperm|].
  intros Hties. symmetry.
  apply (sorted_perm_unique bed_le); [exact Hties | exact Hsorted | |].
  - eapply process_bed_file_sorted, Hrun.
  - apply Permutation_sym, Hperm.
Qed.

Lemma process_bed_file_on_own_output_example :
  exists out',
    process_bed_file
      (map record_of_row [mkRow (Some "chr2") 60 100 (Some "G1");
                          mkRow (Some "chr10") 0 19 (Some "G2")])
      0 true true = Ok out'
    /\ Permutation out' [mkRow (Some "chr2") 60 100 (Some "G1");
                         mkRow (Some "chr10") 0 19 (Some "G2")]
    /\ ((forall a b,
            In a [mkRow (Some "chr2") 60 100 (Some "G1");
                  mkRow (Some "chr10") 0 19 (Some "G2")] ->
            In b [mkRow (Some "chr2") 60 100 (Some "G1");
                  mkRow (Some "chr10") 0 19 (Some "G2")] ->
            bed_le a b -> bed_le b a -> a = b) ->
        out' = [mkRow (Some "chr2") 60 100 (Some "G1");
                mkRow (Some "chr10") 0 19 (Some "G2")]).
Proof.
  apply (process_bed_file_on_own_output
           [mkRecord (Some "chr2") (Some 90) (Some 70) (Some "G1");
            mkRecord (Some "chr10") (Some 5) (Some 9) (Some "G2")]
           10 true true).
  - vm_compute. reflexivity.
  - repeat apply Forall_cons; try apply Forall_nil; cbn [start end_]; lia.
Defined.

(* ================================================================= *)
(** ** Reading the gene symbols *)

Lemma all_chars_impl (f g : ascii -> bool) (s : string) :
  (forall c, f c = true -> g c = true) ->
  all_chars f s = true -> all_chars g s = true.
Proof.
  intros H. induction s as [|c s IH]; cbn [all_chars]; [reflexivity|].
  rewrite !andb_true_iff. intros [Hc Hs]. split; [now apply H | now apply IH].
Qed.

Lemma all_chars_app (f : ascii -> bool) (s t : string) :
  all_chars f (s ++ t) = all_chars f s && all_chars f t.
Proof.
  induction s as [|c s IH]; [reflexivity|].
  change (String c s ++ t) with (String c (s ++ t)). cbn [all_chars].
  now rewrite IH, andb_assoc.
Qed.

Lemma lstrip_all_chars (f : ascii -> bool) (s : string) :
  all_chars f s = true -> all_chars f (lstrip s) = true.
Proof.
  induction s as [|c s IH]; cbn [lstrip]; [reflexivity|].
  intros H. destruct (is_space c); [|exact H].
  cbn [all_chars] in H. apply andb_true_iff in H. now apply IH.
Qed.

Lemma rstrip_all_chars (f : ascii -> bool) (s : string) :
  all_chars f s = true -> all_chars f (rstrip s) = true.
Proof.
  induction s as [|c s IH]; cbn [rstrip]; [reflexivity|].
  cbn [all_chars]. rewrite andb_true_iff. intros [Hc Hs].
  specialize (IH Hs). destruct (rstrip s) as [|c' t].
  - destruct (is_space c); [reflexivity|]. cbn [all_chars]. now rewrite Hc.
  - cbn [all_chars] in *. now rewrite Hc, IH.
Qed.

Lemma rstrip_idempotent (s : string) : rstrip (rstrip s) = rstrip s.
Proof.
  induction s as [|c s IH]; [reflexivity|]. cbn [rstrip].
  destruct (rstrip s) as [|c' t] eqn:E.
  - destruct (is_space c) eqn:Ec; [reflexivity|].
    cbn [rstrip]. now rewrite Ec.
  - cbn [rstrip]. cbn [rstrip] in IH. rewrite IH. reflexivity.
Qed.

Lemma rstrip_head (c : ascii) (s : string) :
  is_space c = false -> exists t, rstrip (String c s) = String c t.
Proof.
  intros Hc. cbn [rstrip]. destruct (rstrip s) as [|c' t].
  - rewrite Hc. now exists "".
  - now exists (String c' t).
Qed.

Lemma lstrip_head (s : string) :
  lstrip s = "" \/ exists c t, lstrip s = String c t /\ is_space c = false.
Proof.
  induction s as [|c s IH]; cbn [lstrip]; [now left|].
  destruct (is_space c) eqn:E; [exact IH|]. right. now exists c, s.
Qed.

Lemma strip_idempotent (s : string) : strip (strip s) = strip s.
Proof.
  unfold strip. destruct (lstrip_head s) as [->|(c & t & -> & Hc)].
  - reflexivity.
  - destruct (rstrip_head c t Hc) as [t' E]. rewrite E.
    cbn [lstrip]. rewrite Hc. rewrite <- E. apply rstrip_idempotent.
Qed.

Lemma rstrip_empty (s : string) :
  rstrip s = "" <-> all_chars is_space s = true.
Proof.
  induction s as [|c s IH]; cbn [rstrip all_chars]; [tauto|].
  rewrite andb_true_iff, <- IH. destruct (rstrip s) as [|c' t].
  - destruct (is_space c); split; try tauto; try discriminate.
    intros [H _]. discriminate.
  - split; [discriminate | intros [_ H]; discriminate].
Qed.

Lemma lstrip_empty (s : string) :
  lstrip s = "" <-> all_chars is_space s = true.
Proof.
  induction s as [|c s IH]; cbn [lstrip all_chars]; [tauto|].
  destruct (is_space c); cbn [andb]; [exact IH|].
  split; discriminate.
Qed.

Lemma strip_empty (s : string) :
  strip s = "" <-> all_chars is_space s = true.
Proof.
  unfold strip. rewrite rstrip_empty. split.
  - intros H. destruct (lstrip_head s) as [E|(c & t & E & Hc)].
    + now apply lstrip_empty.
    + rewrite E in H. cbn [all_chars] in H. rewrite Hc in H. discriminate.
  - apply lstrip_all_chars.
Qed.

Lemma split_nonempty (sep : ascii) (s : string) : split sep s <> [].
Proof.
  destruct s as [|c s]; cbn [split]; [discriminate|].
  destruct (Ascii.eqb c sep); [discriminate|].
  destruct (split sep s); discriminate.
Qed.

(** The pieces of a split hold the characters of the text other than
    the separator. *)
Lemma split_all_chars (f : ascii -> bool) (sep : ascii) (s : string) :
  forallb (all_chars f) (split sep s)
  = all_chars (fun c => Ascii.eqb c sep || f c) s.
Proof.
  induction s as [|c s IH]; [reflexivity|]. cbn [split all_chars].
  rewrite <- IH. destruct (Ascii.eqb c sep); [reflexivity|].
  pose proof (split_nonempty sep s) as Hne.
  destruct (split sep s) as [|piece pieces]; [congruence|].
  cbn [forallb all_chars orb]. now rewrite andb_assoc.
Qed.

Lemma split_no_sep (sep : ascii) (s : string) :
  forallb (all_chars (fun c => negb (Ascii.eqb c sep))) (split sep s) = true.
Proof.
  rewrite split_all_chars.
  induction s as [|c s IH]; cbn [all_chars]; [reflexivity|].
  rewrite IH. now destruct (Ascii.eqb c sep).
Qed.

Lemma replace_all_chars (f : ascii -> bool) (a b : ascii) (s : string) :
  all_chars f (replace a b s)
  = all_chars (fun c => f (if Ascii.eqb c a then b else c)) s.
Proof.
  induction s as [|c s IH]; [reflexivity|]. cbn [replace all_chars].
  now rewrite IH.
Qed.

Lemma pieces_without_separators (genes : string) :
  forallb (all_chars (fun c => negb (Ascii.eqb c comma)
                               && negb (Ascii.eqb c newline)))
          (split newline (replace comma newline genes)) = true.
Proof.
  assert (H1 : forallb (all_chars (fun c => negb (Ascii.eqb c comma)))
                       (split newline (replace comma newline genes)) = true).
  { rewrite split_all_chars, replace_all_chars.
    induction genes as [|c s IH]; cbn [all_chars]; [reflexivity|].
    rewrite IH, andb_true_r. now destruct (Ascii.eqb c comma) eqn:E; [|rewrite E, orb_true_r]. }
  pose proof (split_no_sep newline (replace comma newline genes)) as H2.
  rewrite forallb_forall in *. intros piece Hp.
  specialize (H1 piece Hp). specialize (H2 piece Hp). clear Hp.
  induction piece as [|c s IH]; [reflexivity|]. cbn [all_chars] in *.
  apply andb_true_iff in H1, H2. destruct H1 as [H1 H1'], H2 as [H2 H2'].
  now rewrite H1, H2, IH.
Qed.

Lemma parse_symbols_Forall_clean (genes : string) :
  Forall clean_symbol (parse_symbols genes).
Proof.
  unfold parse_symbols. rewrite Forall_forall. intros symbol H.
  apply filter_In in H. destruct H as [H Hne].
  apply in_map_iff in H. destruct H as (piece & <- & Hp).
  pose proof (pieces_without_separators genes) as Hsep.
  rewrite forallb_forall in Hsep. specialize (Hsep piece Hp).
  split; [|split].
  - intros E. rewrite E in Hne. discriminate.
  - unfold strip. now apply rstrip_all_chars, lstrip_all_chars.
  - apply strip_idempotent.
Qed.

Lemma parse_symbols_empty_iff (genes : string) :
  parse_symbols genes = [] <->
  all_chars (fun c => Ascii.eqb c comma || is_space c) genes = true.
Proof.
  unfold parse_symbols.
  set (pieces := split newline (replace comma newline genes)).
  assert (E : forallb (all_chars is_space) pieces
              = all_chars (fun c => Ascii.eqb c comma || is_space c) genes).
  { unfold pieces. rewrite split_all_chars, replace_all_chars.
    clear. induction genes as [|c s IH]; cbn [all_chars]; [reflexivity|].
    rewrite IH. f_equal.
    destruct (Ascii.eqb c comma) eqn:Ec; [reflexivity|].
    destruct (Ascii.eqb c newline) eqn:En; cbn [orb]; [|reflexivity].
    apply Ascii.eqb_eq in En. now subst. }
  rewrite <- E. clear E. induction pieces as [|piece pieces IH].
  - cbn. tauto.
  - cbn [map filter forallb]. rewrite andb_true_iff, <- IH, <- strip_empty.
    destruct (strip piece) eqn:Es; cbn [is_empty negb].
    + tauto.
    + split; [discriminate | intros [H _]; discriminate].
Qed.

(** X13: For an ASCII text, the symbols read from the request are clean:
    none is empty, none contains a comma or a line break, none has a
    blank at either end.  The list of symbols is empty exactly when the
    text holds nothing but commas and white space. *)
Theorem parse_symbols_clean (genes : string) :
  ascii_text genes ->
  Forall clean_symbol (parse_symbols genes)
  /\ (parse_symbols genes = [] <->
      all_chars (fun c => Ascii.eqb c comma || is_space c) genes = true).
Proof.
  intros _.
  split; [apply parse_symbols_Forall_clean | apply parse_symbols_empty_iff].
Qed.

Lemma parse_symbols_clean_example :
  Forall clean_symbol (parse_symbols " brca1, tp53")
  /\ (parse_symbols " brca1, tp53" = [] <->
      all_chars (fun c => Ascii.eqb c comma || is_space c) " brca1, tp53"
      = true).
Proof.
  apply (parse_symbols_clean " brca1, tp53"). vm_compute. reflexivity.
Defined.

Lemma replace_unchanged (a b : ascii) (s : string) :
  all_chars (fun c => negb (Ascii.eqb c a)) s = true -> replace a b s = s.
Proof.
  induction s as [|c s IH]; [reflexivity|]. cbn [all_chars replace].
  rewrite andb_true_iff, negb_true_iff. intros [-> Hs]. now rewrite IH.
Qed.

Lemma replace_app (a b : ascii) (s t : string) :
  replace a b (s ++ t) = replace a b s ++ replace a b t.
Proof.
  induction s as [|c s IH]; [reflexivity|].
  change (String c s ++ t) with (String c (s ++ t)). cbn [replace].
  now rewrite IH.
Qed.

Lemma replace_join (a b sep : ascii) (pieces : list string) :
  Forall (fun s => all_chars (fun c => negb (Ascii.eqb c a)) s = true)
         pieces ->
  replace a b (join sep pieces)
  = join (if Ascii.eqb sep a then b else sep) pieces.
Proof.
  induction 1 as [|s pieces Hs Hrest IH]; [reflexivity|].
  destruct pieces as [|s' pieces'].
  - cbn [join]. now apply replace_unchanged.
  - change (join sep (s :: s' :: pieces'))
      with (s ++ String sep (join sep (s' :: pieces'))).
    rewrite replace_app. cbn [replace]. rewrite IH.
    now rewrite (replace_unchanged _ _ _ Hs).
Qed.

Lemma split_single (sep : ascii) (s : string) :
  all_chars (fun c => negb (Ascii.eqb c sep)) s = true -> split sep s = [s].
Proof.
  induction s as [|c s IH]; [reflexivity|]. cbn [all_chars split].
  rewrite andb_true_iff, negb_true_iff. intros [-> Hs]. now rewrite IH.
Qed.

Lemma split_app_sep (sep : ascii) (s t : string) :
  all_chars (fun c => negb (Ascii.eqb c sep)) s = true ->
  split sep (s ++ String sep t) = s :: split sep t.
Proof.
  induction s as [|c s IH].
  - intros _. change ("" ++ String sep t) with (String sep t).
    cbn [split]. now rewrite Ascii.eqb_refl.
  - cbn [all_chars]. rewrite andb_true_iff, negb_true_iff. intros [Hc Hs].
    change (String c s ++ String sep t) with (String c (s ++ String sep t)).
    cbn [split]. now rewrite Hc, (IH Hs).
Qed.

Lemma split_join (sep : ascii) (pieces : list string) :
  pieces <> [] ->
  Forall (fun s => all_chars (fun c => negb (Ascii.eqb c sep)) s = true)
         pieces ->
  split sep (join sep pieces) = pieces.
Proof.
  intros Hne H. induction H as [|s pieces Hs Hrest IH]; [congruence|].
  destruct pieces as [|s' pieces'].
  - cbn [join]. now apply split_single.
  - change (join sep (s :: s' :: pieces'))
      with (s ++ String sep (join sep (s' :: pieces'))).
    rewrite (split_app_sep _ _ _ Hs), IH; [reflexivity | discriminate].
Qed.

Lemma clean_symbol_no (a : ascii) (symbol : string) :
  a = comma \/ a = newline ->
  clean_symbol symbol ->
  all_chars (fun c => negb (Ascii.eqb c a)) symbol = true.
Proof.
  intros Ha (_ & H & _). eapply all_chars_impl; [|exact H].
  intros c Hc. apply andb_true_iff in Hc. destruct Hc as [H1 H2].
  now destruct Ha as [->| ->].
Qed.

Lemma parse_symbols_join_newline (symbols : list string) :
  Forall clean_symbol symbols ->
  parse_symbols (join newline symbols) = symbols.
Proof.
  intros H. unfold parse_symbols.
  rewrite (replace_join comma newline newline).
  2:{ eapply Forall_impl; [|exact H]. intros s.
      apply clean_symbol_no. now left. }
  change (if Ascii.eqb newline comma then newline else newline) with newline.
  destruct symbols as [|s symbols]; [reflexivity|].
  rewrite split_join; [|discriminate|].
  2:{ eapply Forall_impl; [|exact H]. intros x.
      apply clean_symbol_no. now right. }
  induction H as [|x l (Hne & _ & Hstrip) _ IH]; [reflexivity|].
  cbn [map filter]. rewrite Hstrip.
  destruct x; [congruence|]. cbn [is_empty negb]. now rewrite IH.
Qed.

(** X14: Reading is the inverse of writing: a list of clean ASCII symbols
    written out with commas, or one per line, is read back as it was. *)
Theorem parse_symbols_round_trip (symbols : list string) :
  Forall ascii_text symbols ->
  Forall clean_symbol symbols ->
  parse_symbols (join comma symbols) = symbols
  /\ parse_symbols (join newline symbols) = symbols.
Proof.
  intros _ H. split; [|now apply parse_symbols_join_newline].
  rewrite <- (parse_symbols_join_newline symbols H) at 2.
  unfold parse_symbols. do 2 f_equal.
  rewrite !(replace_join comma newline);
    try (eapply Forall_impl; [|exact H]; intros s;
         apply clean_symbol_no; now left).
  reflexivity.
Qed.

Lemma parse_symbols_round_trip_example :
  parse_symbols (join comma ["BRCA1"; "TP53"; "EGFR"])
    = ["BRCA1"; "TP53"; "EGFR"]
  /\ parse_symbols (join newline ["BRCA1"; "TP53"; "EGFR"])
     = ["BRCA1"; "TP53"; "EGFR"].
Proof.
  apply (parse_symbols_round_trip ["BRCA1"; "TP53"; "EGFR"]).
  - repeat apply Forall_cons; try apply Forall_nil; reflexivity.
  - repeat apply Forall_cons; try apply Forall_nil;
      (split; [discriminate | split; reflexivity]).
Defined.

(* ================================================================= *)
(** ** Looking the symbols up *)

Lemma normalize_well_formed (symbol : string) (gene_data : GeneData) :
  well_formed_position (normalize symbol gene_data).
Proof.
  split; [apply normalize_ordered|].
  split; [apply normalize_chr_prefix | apply normalize_flag].
Qed.

Lemma lookup_each_spec (lookup : string -> option GeneData)
      (symbols : list string) :
  snd (lookup_each lookup symbols)
  = filter (fun s => match lookup s with Some _ => false | None => true end)
           symbols
  /\ (length (fst (lookup_each lookup symbols))
      + length (snd (lookup_each lookup symbols)) = length symbols)%nat
  /\ Forall well_formed_position (fst (lookup_each lookup symbols)).
Proof.
  induction symbols as [|s symbols (IH1 & IH2 & IH3)];
    [now repeat split|].
  cbn [lookup_each filter]. destruct (lookup_each lookup symbols) as [f nf].
  cbn [fst snd] in *. destruct (lookup s) as [gd|]; cbn [fst snd length].
  - repeat split; [exact IH1 | lia |].
    constructor; [apply normalize_well_formed | exact IH3].
  - repeat split; [now rewrite IH1 | lia | exact IH3].
Qed.

Lemma set_listing_length (w : World) (l : list string) :
  set_listing w ->
  length (list_of_set w l) = length (nodup string_dec l).
Proof.
  intros H. destruct (H l) as [Hnd Hin]. apply Permutation_length.
  apply NoDup_Permutation; [exact Hnd | apply NoDup_nodup|].
  intros x. now rewrite Hin, nodup_In.
Qed.

(** X15: Every ASCII symbol asked for is accounted for once.  After trimming
    and upper-casing, each distinct symbol yields either one entry of
    [found] or its name in [not_found]; [not_found] names no symbol
    twice and only symbols that were asked for; and every entry of
    [found] is well formed: [start <= end], a contig that begins with
    "chr", and an [is_standard] flag that is the classification of that
    contig. *)
Theorem fetch_gene_positions_accounts_for_every_symbol
        (w : World) (gene_symbols : list string)
        (found : list Position) (missing : list string) :
  Forall ascii_text gene_symbols ->
  set_listing w ->
  fetch_gene_positions w gene_symbols = Ok (found, missing) ->
  NoDup missing
  /\ incl missing (wanted_symbols gene_symbols)
  /\ (length found + length missing
      = length (nodup string_dec (wanted_symbols gene_symbols)))%nat
  /\ Forall well_formed_position found.
Proof.
  intros _ Hw H. unfold fetch_gene_positions in H.
  destruct gene_symbols as [|g gs].
  { inversion H; subst. repeat split; try constructor.
    intros x Hx. contradiction. }
  set (wanted := wanted_symbols (g :: gs)) in *.
  rewrite <- (set_listing_length w wanted Hw).
  destruct (Hw wanted) as [Hnd Hin].
  assert (Hgen : forall lookup,
             Ok (lookup_each lookup (list_of_set w wanted))
               = Ok (found, missing) ->
             NoDup missing /\ incl missing wanted
             /\ (length found + length missing
                 = length (list_of_set w wanted))%nat
             /\ Forall well_formed_position found).
  { intros lookup E. inversion E as [E'].
    destruct (lookup_each_spec lookup (list_of_set w wanted))
      as (H1 & H2 & H3).
    rewrite E' in H1, H2, H3. cbn [fst snd] in *.
    repeat split; try assumption.
    - rewrite H1. now apply NoDup_filter.
    - intros x Hx. rewrite H1 in Hx. apply filter_In in Hx.
      now apply Hin. }
  destruct (post_lookup w (list_of_set w wanted)) as [data| |msg].
  - now apply (Hgen data).
  - now apply (Hgen (get_lookup w)).
  - discriminate H.
Qed.

Lemma fetch_gene_positions_accounts_for_every_symbol_example :
  NoDup ["TP53"]
  /\ incl ["TP53"] (wanted_symbols [" brca1"; "tp53 "; "BRCA1"])
  /\ Nat.add
       (length [normalize "BRCA1"
                  (mkGeneData (Some "BRCA1") (Some "17") (Some 43125364)
                              (Some 43044295) (Some (-1)))])
       (length ["TP53"])
     = length (nodup string_dec
                 (wanted_symbols [" brca1"; "tp53 "; "BRCA1"]))
  /\ Forall well_formed_position
       [normalize "BRCA1"
          (mkGeneData (Some "BRCA1") (Some "17") (Some 43125364)
                      (Some 43044295) (Some (-1)))].
Proof.
  apply (fetch_gene_positions_accounts_for_every_symbol
           (mkWorld (nodup string_dec)
              (fun _ => Status200
                 (fun s => if String.eqb s "BRCA1"
                           then Some (mkGeneData (Some "BRCA1") (Some "17")
                                        (Some 43125364) (Some 43044295)
                                        (Some (-1)))
                           else None))
              (fun _ => None))
           [" brca1"; "tp53 "; "BRCA1"]).
  - repeat apply Forall_cons; try apply Forall_nil; reflexivity.
  - intros l. split; [apply NoDup_nodup | intros x; apply nodup_In].
  - vm_compute. reflexivity.
Defined.

(** X16: On an ASCII text [/fetch-positions] answers "No gene symbols
    provided" exactly when the text holds nothing but commas and white
    space, whatever the lookup service would reply. *)
Theorem fetch_positions_refuses_blank_request (w : World) (text : string) :
  ascii_text text ->
  (fetch_positions w text
     = Raise (HTTPException 400 "No gene symbols provided")
   <-> all_chars (fun c => Ascii.eqb c comma || is_space c) text = true).
Proof.
  intros _.
  rewrite <- (parse_symbols_empty_iff text). unfold fetch_positions.
  destruct (parse_symbols text) as [|s l]; [tauto|].
  split; [|discriminate]. unfold fetch_gene_positions.
  destruct (post_lookup w _); cbn [bind]; discriminate.
Qed.

Lemma fetch_positions_refuses_blank_request_example :
  fetch_positions (mkWorld (nodup string_dec) (fun _ => StatusOther)
                           (fun _ => None)) " ,  , "
    = Raise (HTTPException 400 "No gene symbols provided")
  <-> all_chars (fun c => Ascii.eqb c comma || is_space c) " ,  , " = true.
Proof.
  apply (fetch_positions_refuses_blank_request
           (mkWorld (nodup string_dec) (fun _ => StatusOther)
                    (fun _ => None)) " ,  , ").
  vm_compute. reflexivity.
Defined.

Lemma fetch_positions_found
      (w : World) (text : string) (response : PositionsResponse) :
  fetch_positions w text = Ok response ->
  exists found,
    Forall well_formed_position found
    /\ genes response = filter p_is_standard found
    /\ non_standard response
       = filter (fun g => negb (p_is_standard g)) found.
Proof.
  unfold fetch_positions.
  destruct (parse_symbols text) as [|s l]; [discriminate|].
  destruct (fetch_gene_positions w (s :: l)) as [[found missing]|] eqn:E;
    cbn [bind fst snd]; [|discriminate].
  intros H. inversion H; subst. cbn [genes non_standard]. clear H.
  exists found. split; [|now split].
  unfold fetch_gene_positions in E.
  destruct (post_lookup w _) as [data| |msg]; inversion E as [E'];
    match type of E' with
    | lookup_each ?f ?l = _ =>
        destruct (lookup_each_spec f l) as (_ & _ & H3);
        now rewrite E' in H3
    end.
Qed.

Lemma fetch_positions_result
      (w : World) (text : string) (response : PositionsResponse) :
  fetch_positions w text = Ok response ->
  exists found,
    fetch_gene_positions w (parse_symbols text)
      = Ok (found, not_found response)
    /\ genes response = filter p_is_standard found
    /\ non_standard response
       = filter (fun g => negb (p_is_standard g)) found.
Proof.
  unfold fetch_positions.
  destruct (parse_symbols text) as [|s l]; [discriminate|].
  destruct (fetch_gene_positions w (s :: l)) as [[found missing]|] eqn:E;
    cbn [bind fst snd]; [|discriminate].
  intros H. inversion H; subst. cbn [genes non_standard not_found].
  exists found. now repeat split.
Qed.

Lemma fetch_gene_positions_well_formed
      (w : World) (gene_symbols : list string)
      (found : list Position) (missing : list string) :
  fetch_gene_positions w gene_symbols = Ok (found, missing) ->
  Forall well_formed_position found.
Proof.
  unfold fetch_gene_positions. destruct gene_symbols as [|g gs].
  { intros E. inversion E. constructor. }
  destruct (post_lookup w _) as [data| |msg]; intros E; inversion E as [E'];
    match type of E' with
    | lookup_each ?f ?l = _ =>
        destruct (lookup_each_spec f l) as (_ & _ & H3);
        now rewrite E' in H3
    end.
Qed.

Lemma filter_partition_length {A : Type} (f : A -> bool) (l : list A) :
  (length (filter f l) + length (filter (fun x => negb (f x)) l)
   = length l)%nat.
Proof.
  induction l as [|x l IH]; [reflexivity|]. cbn [filter].
  destruct (f x); cbn [negb length]; lia.
Qed.

Lemma filter_partition_In {A : Type} (f : A -> bool) (l : list A) (x : A) :
  In x l <-> In x (filter f l) \/ In x (filter (fun y => negb (f y)) l).
Proof.
  rewrite !filter_In. destruct (f x); cbn [negb]; intuition congruence.
Qed.

(** X17: The response of [/fetch-positions] to an ASCII text partitions
    what the lookup found.  With [found] and [not_found] the two lists
    that [fetch_gene_positions] returns for the symbols of the text,
    [genes] is [found] restricted to the entries on standard
    chromosomes, [non_standard] is [found] restricted to the others,
    both in the order of [found]; every entry of [found] is in exactly
    one of the two lists, as often as in [found]; and [not_found] is
    passed on unchanged.  The entries of [genes] are on standard
    chromosomes, those of [non_standard] are not, and all are well
    formed. *)
Theorem fetch_positions_splits_by_standard
        (w : World) (text : string) (response : PositionsResponse) :
  ascii_text text ->
  fetch_positions w text = Ok response ->
  exists found,
    fetch_gene_positions w (parse_symbols text)
      = Ok (found, not_found response)
    /\ genes response = filter p_is_standard found
    /\ non_standard response
       = filter (fun g => negb (p_is_standard g)) found
    /\ (forall p, In p found
                  <-> In p (genes response) \/ In p (non_standard response))
    /\ (forall p, ~ (In p (genes response)
                     /\ In p (non_standard response)))
    /\ Nat.add (length (genes response)) (length (non_standard response))
       = length found
    /\ Forall (fun p => In (p_chr p) STANDARD_CHROMOSOMES
                        /\ well_formed_position p) (genes response)
    /\ Forall (fun p => ~ In (p_chr p) STANDARD_CHROMOSOMES
                        /\ well_formed_position p) (non_standard response).
Proof.
  intros _ H.
  destruct (fetch_positions_result _ _ _ H) as (found & Hfound & Hg & Hn).
  assert (Hwf' : forall p, In p found -> well_formed_position p).
  { apply Forall_forall. eapply fetch_gene_positions_well_formed, Hfound. }
  exists found. rewrite Hg, Hn.
  split; [exact Hfound|]. split; [reflexivity|]. split; [reflexivity|].
  split; [apply filter_partition_In|].
  split.
  { intros p [H1 H2]. apply filter_In in H1, H2.
    destruct H1 as [_ H1], H2 as [_ H2]. rewrite H1 in H2. discriminate H2. }
  split; [apply filter_partition_length|].
  split; rewrite Forall_forall; intros p Hp; apply filter_In in Hp;
    destruct Hp as [Hp Hstd]; (split; [|now apply Hwf']);
    destruct (Hwf' p Hp) as (_ & _ & Hflag);
    rewrite Hflag in Hstd.
  - now apply is_standard_chromosome_In.
  - apply negb_true_iff in Hstd. intros Hin.
    apply is_standard_chromosome_In in Hin. congruence.
Qed.

Lemma fetch_positions_splits_by_standard_example :
  exists found,
    fetch_gene_positions
      (mkWorld (nodup string_dec)
         (fun _ => Status200
            (fun s => if String.eqb s "BRCA1"
                      then Some (mkGeneData (Some "BRCA1") (Some "17")
                                   (Some 43125364) (Some 43044295)
                                   (Some (-1)))
                      else None))
         (fun _ => None))
      (parse_symbols " brca1, tp53")
      = Ok (found, ["TP53"])
    /\ [normalize "BRCA1"
          (mkGeneData (Some "BRCA1") (Some "17") (Some 43125364)
                      (Some 43044295) (Some (-1)))]
       = filter p_is_standard found
    /\ [] = filter (fun g => negb (p_is_standard g)) found.
Proof.
  destruct (fetch_positions_splits_by_standard
           (mkWorld (nodup string_dec)
              (fun _ => Status200
                 (fun s => if String.eqb s "BRCA1"
                           then Some (mkGeneData (Some "BRCA1") (Some "17")
                                        (Some 43125364) (Some 43044295)
                                        (Some (-1)))
                           else None))
              (fun _ => None))
           " brca1, tp53"
           (mkPositionsResponse
              [normalize "BRCA1"
                 (mkGeneData (Some "BRCA1") (Some "17") (Some 43125364)
                             (Some 43044295) (Some (-1)))]
              [] ["TP53"])
           ltac:(vm_compute; reflexivity)
           ltac:(vm_compute; reflexivity))
    as (found & H1 & H2 & H3 & _).
  exists found. split; [exact H1|]. split; [exact H2 | exact H3].
Defined.

(* ================================================================= *)
(** ** From [/fetch-positions] to [/generate-bed] *)

Lemma frame_of_positions (ps : list Position) :
  frame_of_records (map json_of_position ps) = map record_of_position ps.
Proof. unfold frame_of_records. rewrite map_map. reflexivity. Qed.

Lemma generate_bed_ok_process_bed_file
      (records : list JsonRecord) (extend_bp : Z) (out : list Row) :
  generate_bed records extend_bp = Ok out ->
  process_bed_file (frame_of_records records) extend_bp false false = Ok out.
Proof.
  unfold generate_bed. destruct records as [|r records]; [discriminate|].
  destruct (has_chr _); cbn [negb]; [|discriminate].
  destruct (has_start _); cbn [negb]; [|discriminate].
  destruct (has_end _); cbn [negb]; [|discriminate].
  destruct (has_gene _); cbn [negb]; [|discriminate].
  trivial.
Qed.

Lemma generate_bed_accepts_positions (ps : list Position) (extend_bp : Z) :
  ps <> [] ->
  exists out, generate_bed (map json_of_position ps) extend_bp = Ok out.
Proof.
  intros Hne. apply generate_bed_succeeds.
  - destruct ps; [congruence | discriminate].
  - destruct ps as [|p ps]; [congruence|]. apply Exists_cons_hd. discriminate.
  - destruct ps as [|p ps]; [congruence|]. apply Exists_cons_hd. discriminate.
  - rewrite Forall_map, Forall_forall. intros q _. split; discriminate.
Qed.

(** X18: The two endpoints fit together.  Whatever the lookup service
    replied, the [genes] list of a [/fetch-positions] response, when not
    empty, is accepted by [/generate-bed] for every [extend_bp]; the
    rows of the file are all on standard chromosomes and come in the
    order chr1, ..., chr22, chrX, chrY, those of one chromosome by
    ascending start; and so is any non-empty choice among [genes] and
    [non_standard] accepted. *)
Theorem fetched_genes_make_a_bed_file
        (w : World) (text : string) (response : PositionsResponse)
        (extend_bp : Z) :
  fetch_positions w text = Ok response ->
  (genes response <> [] ->
   exists out,
     generate_bed (map json_of_position (genes response)) extend_bp
       = Ok out
     /\ Forall (fun m => exists c, chr m = Some c
                                   /\ In c STANDARD_CHROMOSOMES) out
     /\ StronglySorted
          (fun a b =>
             (karyotype_rank (chr a) < karyotype_rank (chr b))%nat
             \/ (chr a = chr b /\ start a <= start b))
          out)
  /\ (forall selected,
        selected <> [] ->
        incl selected (genes response ++ non_standard response) ->
        exists out,
          generate_bed (map json_of_position selected) extend_bp = Ok out).
Proof.
  intros H. split.
  - intros Hne.
    destruct (generate_bed_accepts_positions _ extend_bp Hne) as [out Hout].
    exists out. split; [exact Hout|].
    apply generate_bed_ok_process_bed_file in Hout.
    rewrite frame_of_positions in Hout.
    assert (Hrows : Forall (fun m => exists c, chr m = Some c
                                      /\ In c STANDARD_CHROMOSOMES) out).
    { apply (output_on_standard_chromosomes _ _ _ _ _ Hout).
      destruct (fetch_positions_found _ _ _ H) as (found & Hwf & -> & _).
      rewrite Forall_map, Forall_forall. intros p Hp.
      apply filter_In in Hp. destruct Hp as [Hp Hstd].
      rewrite Forall_forall in Hwf. destruct (Hwf p Hp) as (_ & _ & Hflag).
      exists (p_chr p). split; [reflexivity | congruence]. }
    split; [exact Hrows|].
    apply standard_rows_sorted; [exact Hrows|].
    eapply process_bed_file_sorted, Hout.
  - intros selected Hne _. now apply generate_bed_accepts_positions.
Qed.

Lemma fetched_genes_make_a_bed_file_example :
  exists out,
    generate_bed
      (map json_of_position
           [normalize "BRCA1"
              (mkGeneData (Some "BRCA1") (Some "17") (Some 43125364)
                          (Some 43044295) (Some (-1)))])
      1000 = Ok out
    /\ Forall (fun m => exists c, chr m = Some c
                                  /\ In c STANDARD_CHROMOSOMES) out
    /\ StronglySorted
         (fun a b =>
            (karyotype_rank (chr a) < karyotype_rank (chr b))%nat
            \/ (chr a = chr b /\ start a <= start b))
         out.
Proof.
  apply (proj1 (fetched_genes_make_a_bed_file
           (mkWorld (nodup string_dec)
              (fun _ => Status200
                 (fun s => if String.eqb s "BRCA1"
                           then Some (mkGeneData (Some "BRCA1") (Some "17")
                                        (Some 43125364) (Some 43044295)
                                        (Some (-1)))
                           else None))
              (fun _ => None))
           " brca1, tp53"
           (mkPositionsResponse
              [normalize "BRCA1"
                 (mkGeneData (Some "BRCA1") (Some "17") (Some 43125364)
                             (Some 43044295) (Some (-1)))]
              [] ["TP53"])
           1000 ltac:(vm_compute; reflexivity))).
  discriminate.
Defined.
